(** * dso-database-table-def-anonymizer: a shallow embedding of [main.py]

    The program reads a text file, runs one [re.sub] pass whose replacement
    is a callback that numbers the matches, and writes the result.  The
    embedding follows the file top to bottom:

    - [Py]: the Python values the program handles (text as a list of code
      points, [int] as [Z], exceptions with their class hierarchy);
    - [Re]: the part of the [re] module that [re.sub] exercises: a pattern
      syntax tree for the common constructs, the backtracking matcher, the
      search and substitution loops of [_sre];
    - [ReParse]: a parser from pattern text to trees, for the examples;
    - [Codecs]: decoding with an error handler and strict encoding;
    - [Host]: what the interpreter and the installed packages supply and the
      program takes as given ([chardet.detect], the codec registry, the
      pattern parser, the option handling of [argparse], [repr],
      [os.linesep], the Unicode tables);
    - [Main]: [anonymize_table_definition] and [main] over a file system,
      a log and an exit status;
    - [Host0]: a concrete host on which the examples run;
    - [Spec]: the notions of the specification that the theorems compare the
      program with;
    - the remaining modules: the properties. *)

From Stdlib Require Import ZArith NArith Decimal DecimalString DecimalZ Ascii String Bool Lia.
From stdpp Require Import base option list gmap.

Open Scope nat_scope.

(** ** Python values *)

Module Py.

(** A [str] is a sequence of Unicode code points. *)
Definition char := N.
Definition str := list char.
Definition bytes := list N.

(** A literal of the development: the code points of an ASCII string. *)
Fixpoint py (s : string) : str :=
  match s with
  | EmptyString => []
  | String a s' => N_of_ascii a :: py s'
  end.

Arguments py : simpl never.

Definition str_eqb (a b : str) : bool := bool_decide (a = b).

(** [str(int)], used by the f-string [f"{column_prefix}{column_count}"]. *)
Fixpoint digits (u : Decimal.uint) : str :=
  match u with
  | Decimal.Nil => []
  | Decimal.D0 u' => 48%N :: digits u'
  | Decimal.D1 u' => 49%N :: digits u'
  | Decimal.D2 u' => 50%N :: digits u'
  | Decimal.D3 u' => 51%N :: digits u'
  | Decimal.D4 u' => 52%N :: digits u'
  | Decimal.D5 u' => 53%N :: digits u'
  | Decimal.D6 u' => 54%N :: digits u'
  | Decimal.D7 u' => 55%N :: digits u'
  | Decimal.D8 u' => 56%N :: digits u'
  | Decimal.D9 u' => 57%N :: digits u'
  end.

Definition str_of_int (z : Z) : str :=
  match Z.to_int z with
  | Decimal.Pos u => digits u
  | Decimal.Neg u => 45%N :: digits u
  end.

(** Unicode data for the code points above the ASCII range.  The ASCII range
    is written out below; the rest of the tables is data of the interpreter
    and is taken as given. *)
Record unicode_data := {
  u_tolower : char -> char;        (* simple lower-case mapping, [_sre.unicode_tolower] *)
  u_isalnum : char -> bool;        (* [str.isalnum] *)
  u_isdecimal : char -> bool;      (* [str.isdecimal] *)
  u_isspace : char -> bool;        (* [str.isspace] *)
  u_lower : char -> str            (* full lower-case mapping, [str.lower] *)
}.

Definition is_ascii (c : char) : bool := (c <? 128)%N.
Definition is_upper_ascii (c : char) : bool := (65 <=? c)%N && (c <=? 90)%N.
Definition is_lower_ascii (c : char) : bool := (97 <=? c)%N && (c <=? 122)%N.
Definition is_digit_ascii (c : char) : bool := (48 <=? c)%N && (c <=? 57)%N.
Definition lower_ascii (c : char) : char := if is_upper_ascii c then (c + 32)%N else c.

Section Unicode.
Context (ucd : unicode_data).

Definition tolower (c : char) : char :=
  if is_ascii c then lower_ascii c else u_tolower ucd c.

Definition isdecimal (c : char) : bool :=
  if is_ascii c then is_digit_ascii c else u_isdecimal ucd c.

(* ASCII white space of [str.isspace]: TAB..CR, FS..US and the space *)
Definition isspace (c : char) : bool :=
  if is_ascii c
  then ((9 <=? c)%N && (c <=? 13)%N) || ((28 <=? c)%N && (c <=? 32)%N)
  else u_isspace ucd c.

Definition isalnum (c : char) : bool :=
  if is_ascii c
  then is_digit_ascii c || is_upper_ascii c || is_lower_ascii c
  else u_isalnum ucd c.

(** [str.lower()] *)
Definition lower (s : str) : str :=
  flat_map (fun c => if is_ascii c then [lower_ascii c] else u_lower ucd c) s.
End Unicode.

(** Exception classes, with the method resolution order of each (the class
    itself first), as far as the program can meet them. *)
Inductive cls :=
| Exception | OSError | FileNotFoundError | PermissionError | IsADirectoryError
| ValueError | UnicodeError | UnicodeDecodeError | UnicodeEncodeError
| LookupError | re_error.

#[global] Instance cls_eq_dec : EqDecision cls.
Proof. solve_decision. Defined.

Definition mro (c : cls) : list cls :=
  match c with
  | Exception => [Exception]
  | OSError => [OSError; Exception]
  | FileNotFoundError => [FileNotFoundError; OSError; Exception]
  | PermissionError => [PermissionError; OSError; Exception]
  | IsADirectoryError => [IsADirectoryError; OSError; Exception]
  | ValueError => [ValueError; Exception]
  | UnicodeError => [UnicodeError; ValueError; Exception]
  | UnicodeDecodeError => [UnicodeDecodeError; UnicodeError; ValueError; Exception]
  | UnicodeEncodeError => [UnicodeEncodeError; UnicodeError; ValueError; Exception]
  | LookupError => [LookupError; Exception]
  | re_error => [re_error; Exception]
  end.

Definition issubclass (c d : cls) : bool := bool_decide (d ∈ mro c).

(** [IOError] is an alias of [OSError]. *)
Definition IOError : cls := OSError.

(** A raised exception: an instance of a class below [Exception] with its
    [str(e)], or [SystemExit] (which derives from [BaseException] only). *)
Inductive exn :=
| Exn (c : cls) (msg : str)
| SystemExit (code : Z).

Definition isinstance (e : exn) (d : cls) : bool :=
  match e with
  | Exn c _ => issubclass c d
  | SystemExit _ => false
  end.

Definition str_of_exn (e : exn) : str :=
  match e with
  | Exn _ m => m
  | SystemExit code => str_of_int code
  end.

End Py.

(** ** The [re] module, as far as [re.sub] needs it *)

Module Re.
Import Py.

(** Pattern syntax trees, as [sre_parse] builds them.  Groups are kept as
    nodes but their captures are not recorded: the replacement callback of
    the program never looks at its match object. *)
Inductive category := CDigit | CSpace | CWord.           (* \d \s \w *)

Inductive set_item :=
| SChar (c : char)                                       (* [a] *)
| SRange (lo hi : char)                                  (* [a-z] *)
| SCat (neg : bool) (k : category).                      (* [\w], [\W] *)

Inductive anchor :=
| ABegin                                                 (* ^ *)
| AEnd                                                   (* $ *)
| ABeginString                                           (* \A *)
| AEndString                                             (* \Z *)
| ABoundary.                                             (* \b *)

Record flags := { ignorecase : bool; multiline : bool; dotall : bool }.

Definition no_flags : flags :=
  {| ignorecase := false; multiline := false; dotall := false |}.
Definition IGNORECASE : flags :=
  {| ignorecase := true; multiline := false; dotall := false |}.

Inductive regex :=
| REmpty
| RLit (c : char)
| RAny                                                   (* . *)
| RCat (neg : bool) (k : category)                       (* \w, \W, ... *)
| RSet (neg : bool) (items : list set_item)              (* [...] and [^...] *)
| RAt (a : anchor)
| RSeq (r1 r2 : regex)
| RAlt (r1 r2 : regex)                                   (* r1|r2 *)
| RRepeat (lo : nat) (hi : option nat) (greedy : bool) (r : regex)
| RGroup (r : regex)                                     (* (...) and (?:...) *)
| RFlags (on off : flags) (r : regex).                   (* (?ims-ims:...) *)

(** [_combine_flags] of [sre_compile]: the flags in force inside a scoped
    group. *)
Definition combine_flags (fl on off : flags) : flags :=
  {| ignorecase := (ignorecase fl || ignorecase on) && negb (ignorecase off);
     multiline := (multiline fl || multiline on) && negb (multiline off);
     dotall := (dotall fl || dotall on) && negb (dotall off) |}.

Definition char_at (t : list char) (p : nat) : option char := t !! p.

(** The code points [lo], [lo+1], ..., [hi]. *)
Definition char_range (lo hi : char) : list char :=
  map (fun i => (lo + N.of_nat i)%N) (seq 0 (N.to_nat (hi + 1 - lo))).

Section Engine.
Context (ucd : unicode_data).

Definition cat_test (k : category) (c : char) : bool :=
  match k with
  | CDigit => isdecimal ucd c
  | CSpace => isspace ucd c
  | CWord => isalnum ucd c || (c =? 95)%N
  end.

(** A literal under IGNORECASE is compared through the lower-case
    mapping.  (The engine also consults a short table of extra
    equivalences between non-ASCII letters, such as the dotless i; that
    table is left out here.) *)
Definition lit_test (ci : bool) (c ch : char) : bool :=
  if ci then (tolower ucd ch =? tolower ucd c)%N else (ch =? c)%N.

Definition item_test (ci : bool) (x : char) (it : set_item) : bool :=
  match it with
  | SChar c => (x =? (if ci then tolower ucd c else c))%N
  | SRange lo hi =>
      if ci then existsb (fun i => (x =? tolower ucd i)%N) (char_range lo hi)
      else (lo <=? x)%N && (x <=? hi)%N
  | SCat neg k => xorb neg (cat_test k x)
  end.

(** Under IGNORECASE a set is tested on the lower-case form of the
    character, against the lower-case forms of its members.  (For a set
    without cased members the engine tests the character itself; the two
    agree on ASCII.) *)
Definition set_test (ci neg : bool) (items : list set_item) (ch : char) : bool :=
  let x := if ci then tolower ucd ch else ch in
  xorb neg (existsb (item_test ci x) items).

Definition is_linebreak (c : char) : bool := (c =? 10)%N.

Definition word_at (t : str) (p : nat) : bool :=
  match char_at t p with
  | Some c => cat_test CWord c
  | None => false
  end.

Definition linebreak_at (t : str) (p : nat) : bool :=
  match char_at t p with
  | Some c => is_linebreak c
  | None => false
  end.

(** [SRE(at)]: the zero-width tests. *)
Definition at_test (fl : flags) (a : anchor) (t : str) (p : nat) : bool :=
  match a with
  | ABegin =>
      (p =? 0) || (multiline fl && negb (p =? 0) && linebreak_at t (p - 1))
  | AEnd =>
      (p =? length t)
      || (linebreak_at t p && ((S p =? length t) || multiline fl))
  | ABeginString => p =? 0
  | AEndString => p =? length t
  | ABoundary =>
      if length t =? 0 then false
      else xorb (negb (p =? 0) && word_at t (p - 1)) (word_at t p)
  end.

(** One character against a test; the continuation [k] receives the
    position after it. *)
Definition step_char (test : char -> bool) (t : str) (p : nat)
           (k : nat -> option nat) : option nat :=
  match char_at t p with
  | Some ch => if test ch then k (S p) else None
  | None => None
  end.

(** The compulsory iterations of a repeat. *)
Fixpoint rep_min (body : nat -> (nat -> option nat) -> option nat)
         (lo : nat) (p : nat) (k : nat -> option nat) : option nat :=
  match lo with
  | 0 => k p
  | S lo' => body p (fun p' => rep_min body lo' p' k)
  end.

(** The optional iterations, at most [n] of them.  As in [MAX_UNTIL] and
    [MIN_UNTIL], an iteration that consumed nothing is not followed by
    another one. *)
Fixpoint rep_opt (body : nat -> (nat -> option nat) -> option nat)
         (greedy : bool) (n : nat) (p : nat) (k : nat -> option nat)
  : option nat :=
  match n with
  | 0 => k p
  | S n' =>
      let more :=
        body p (fun p' => if p' =? p then k p' else rep_opt body greedy n' p' k) in
      if greedy
      then match more with Some e => Some e | None => k p end
      else match k p with Some e => Some e | None => more end
  end.

(** How many optional iterations a repeat may still make at [p]: up to
    the stated maximum, and for an open repeat one more than the
    characters left, since each iteration but the last consumes one. *)
Definition rep_bound (lo : nat) (hi : option nat) (t : str) (p : nat) : nat :=
  match hi with
  | Some h => h - lo
  | None => S (length t - p)
  end.

(** [SRE(match)]: backtracking match of [r] at position [p] of [t]; on
    success the end position accepted by the continuation. *)
Fixpoint sre_m (r : regex) (fl : flags) (t : str) (p : nat)
         (k : nat -> option nat) {struct r} : option nat :=
  match r with
  | REmpty => k p
  | RLit c => step_char (lit_test (ignorecase fl) c) t p k
  | RAny => step_char (fun ch => dotall fl || negb (is_linebreak ch)) t p k
  | RCat neg c => step_char (fun ch => xorb neg (cat_test c ch)) t p k
  | RSet neg items => step_char (set_test (ignorecase fl) neg items) t p k
  | RAt a => if at_test fl a t p then k p else None
  | RSeq r1 r2 => sre_m r1 fl t p (fun p' => sre_m r2 fl t p' k)
  | RAlt r1 r2 =>
      match sre_m r1 fl t p k with
      | Some e => Some e
      | None => sre_m r2 fl t p k
      end
  | RRepeat lo hi greedy r' =>
      rep_min (sre_m r' fl t) lo p
        (fun p' => rep_opt (sre_m r' fl t) greedy (rep_bound lo hi t p') p' k)
  | RGroup r' => sre_m r' fl t p k
  | RFlags on off r' => sre_m r' (combine_flags fl on off) t p k
  end.

(** A match attempt at [start].  With [must_advance] an empty match at
    [start] is refused and the engine backtracks. *)
Definition sre_match (r : regex) (fl : flags) (t : str) (start : nat)
           (must_advance : bool) : option nat :=
  sre_m r fl t start
    (fun e => if must_advance && (e =? start) then None else Some e).

(** [SRE(search)]: the attempt at [start], then at each later position up
    to the end of the text, [must_advance] holding for the first attempt
    only. *)
Fixpoint scan (r : regex) (fl : flags) (t : str) (n ptr : nat)
  : option (nat * nat) :=
  match n with
  | 0 => None
  | S n' =>
      match sre_match r fl t (S ptr) false with
      | Some e => Some (S ptr, e)
      | None => scan r fl t n' (S ptr)
      end
  end.

Definition sre_search (r : regex) (fl : flags) (t : str) (start : nat)
           (must_advance : bool) : option (nat * nat) :=
  match sre_match r fl t start must_advance with
  | Some e => Some (start, e)
  | None => scan r fl t (length t - start) start
  end.

(** [string[i:j]] *)
Definition slice (t : str) (i j : nat) : str := take (j - i) (drop i t).

(** The match object handed to a replacement callback. *)
Record Match := { m_start : nat; m_end : nat }.

(** [pattern_subx] of [_sre] with a callable [filter]: search, copy the
    text before the match, append what the callback returns, go on after
    the match.  The callback runs in a state [S] of its own. *)
Fixpoint subx {S : Type} (fuel : nat) (filter : Match -> S -> str * S)
         (r : regex) (fl : flags) (t : str) (i start : nat)
         (must_advance : bool) (st : S) (pieces : list str)
  : option (str * S) :=
  match fuel with
  | 0 => None
  | Datatypes.S fuel' =>
      match sre_search r fl t start must_advance with
      | None => Some (concat (pieces ++ [drop i t]), st)
      | Some (b, e) =>
          let (item, st') := filter {| m_start := b; m_end := e |} st in
          subx fuel' filter r fl t e e (e =? b) st'
               (pieces ++ [slice t i b; item])
      end
  end.

(** Each turn of the loop either moves on in the text or turns
    [must_advance] on, so this many turns are enough. *)
Definition sub_fuel (t : str) : nat := 2 * length t + 3.

Definition pattern_sub {S : Type} (filter : Match -> S -> str * S)
           (r : regex) (fl : flags) (t : str) (st : S) : option (str * S) :=
  subx (sub_fuel t) filter r fl t 0 0 false st [].

(** [re.finditer]: the spans of the matches, found by the same scan. *)
Fixpoint scanner (fuel : nat) (r : regex) (fl : flags) (t : str)
         (start : nat) (must_advance : bool) : option (list (nat * nat)) :=
  match fuel with
  | 0 => None
  | Datatypes.S fuel' =>
      match sre_search r fl t start must_advance with
      | None => Some []
      | Some (b, e) =>
          match scanner fuel' r fl t e (e =? b) with
          | Some ms => Some ((b, e) :: ms)
          | None => None
          end
      end
  end.

Definition finditer (r : regex) (fl : flags) (t : str)
  : option (list (nat * nat)) :=
  scanner (sub_fuel t) r fl t 0 false.
End Engine.

End Re.

(** ** A parser for a fragment of the pattern syntax

    [sre_parse] is part of the interpreter; the program only hands it the
    pattern text.  The development takes the parser as a parameter (see
    [Host]); this module supplies one for the fragment used in the examples:
    literals, [.], [^], [$], the escapes [\d \D \w \W \s \S \b \A \Z] and
    the control and punctuation escapes, character sets with ranges,
    [(...)], [(?:...)], scoped flags [(?ims-ims:...)], alternation and the
    repeats [* + ? {m} {m,} {,n} {m,n}] with their lazy forms.  Syntax
    outside the fragment (look-around, named groups, back references, global
    inline flags, numeric escapes) is reported as [Unsupported]. *)

Module ReParse.
Import Py Re.

Inductive outcome (A : Type) :=
| Parsed (a : A)
| Invalid (msg : string) (pos : nat)        (* [re.error(msg, pattern, pos)] *)
| Unsupported.
Arguments Parsed {A} a.
Arguments Invalid {A} msg pos.
Arguments Unsupported {A}.

Definition chr_is (a : ascii) (c : char) : bool := (c =? N_of_ascii a)%N.

Definition is_letter_ascii (c : char) : bool := is_upper_ascii c || is_lower_ascii c.

(** A run of decimal digits: its value, its length, what follows. *)
Fixpoint p_digits (s : str) (acc n : nat) : nat * nat * str :=
  match s with
  | c :: s' =>
      if is_digit_ascii c
      then p_digits s' (10 * acc + N.to_nat (c - 48)) (S n)
      else (acc, n, s)
  | [] => (acc, n, s)
  end.

(** A repeat operator at the head of [s]: minimum, maximum, its length and
    what follows.  A brace that does not open a well-formed repeat is not a
    repeat operator. *)
Definition p_repeat (s : str) : option (nat * option nat * nat * str) :=
  match s with
  | c :: s' =>
      if chr_is "*" c then Some (0, None, 1, s')
      else if chr_is "+" c then Some (1, None, 1, s')
      else if chr_is "?" c then Some (0, Some 1, 1, s')
      else if chr_is "{" c then
        let '(lo, n1, s1) := p_digits s' 0 0 in
        match s1 with
        | d :: s2 =>
            if chr_is "}" d then
              if n1 =? 0 then None else Some (lo, Some lo, n1 + 2, s2)
            else if chr_is "," d then
              let '(hi, n2, s3) := p_digits s2 0 0 in
              match s3 with
              | e :: s4 =>
                  if chr_is "}" e
                  then Some (lo, if n2 =? 0 then None else Some hi, n1 + n2 + 3, s4)
                  else None
              | [] => None
              end
            else None
        | [] => None
        end
      else None
  | [] => None
  end.

(** The repeat, if any, that follows the item [a] ending at [pos]. *)
Definition p_quant (a : regex) (pos : nat) (s : str) : outcome (regex * nat * str) :=
  match p_repeat s with
  | None => Parsed (a, pos, s)
  | Some (lo, hi, n, s1) =>
      match a with
      | RAt _ => Invalid "nothing to repeat" pos
      | _ =>
          if match hi with Some h => h <? lo | None => false end
          then Invalid "min repeat greater than max repeat" pos
          else
            let '(greedy, n', s2) :=
              match s1 with
              | c :: s1' => if chr_is "?" c then (false, S n, s1') else (true, n, s1)
              | [] => (true, n, s1)
              end in
            match s2 with
            | c :: _ =>
                if greedy && chr_is "+" c then Unsupported
                else match p_repeat s2 with
                     | Some _ => Invalid "multiple repeat" (pos + n')
                     | None => Parsed (RRepeat lo hi greedy a, pos + n', s2)
                     end
            | [] => Parsed (RRepeat lo hi greedy a, pos + n', s2)
            end
      end
  end.

(** The item after a backslash (the backslash is at [pos]). *)
Definition p_escape (pos : nat) (s : str) : outcome (regex * nat * str) :=
  match s with
  | [] => Invalid "bad escape (end of pattern)" pos
  | c :: s' =>
      let ok r := Parsed (r, pos + 2, s') in
      if chr_is "d" c then ok (RCat false CDigit)
      else if chr_is "D" c then ok (RCat true CDigit)
      else if chr_is "w" c then ok (RCat false CWord)
      else if chr_is "W" c then ok (RCat true CWord)
      else if chr_is "s" c then ok (RCat false CSpace)
      else if chr_is "S" c then ok (RCat true CSpace)
      else if chr_is "b" c then ok (RAt ABoundary)
      else if chr_is "A" c then ok (RAt ABeginString)
      else if chr_is "Z" c then ok (RAt AEndString)
      else if chr_is "n" c then ok (RLit 10%N)
      else if chr_is "t" c then ok (RLit 9%N)
      else if chr_is "r" c then ok (RLit 13%N)
      else if chr_is "f" c then ok (RLit 12%N)
      else if chr_is "v" c then ok (RLit 11%N)
      else if chr_is "a" c then ok (RLit 7%N)
      else if is_digit_ascii c || chr_is "x" c || chr_is "u" c || chr_is "U" c || chr_is "N" c
              || chr_is "B" c
      then Unsupported
      else if is_letter_ascii c then Invalid "bad escape" pos
      else if is_ascii c then ok (RLit c)
      else Unsupported
  end.

(** The member of a set written after a backslash. *)
Definition p_set_escape (c : char) : option set_item :=
  if chr_is "d" c then Some (SCat false CDigit)
  else if chr_is "D" c then Some (SCat true CDigit)
  else if chr_is "w" c then Some (SCat false CWord)
  else if chr_is "W" c then Some (SCat true CWord)
  else if chr_is "s" c then Some (SCat false CSpace)
  else if chr_is "S" c then Some (SCat true CSpace)
  else if chr_is "n" c then Some (SChar 10%N)
  else if chr_is "t" c then Some (SChar 9%N)
  else if chr_is "r" c then Some (SChar 13%N)
  else if chr_is "f" c then Some (SChar 12%N)
  else if chr_is "v" c then Some (SChar 11%N)
  else if chr_is "a" c then Some (SChar 7%N)
  else if chr_is "b" c then Some (SChar 8%N)
  else if is_digit_ascii c || is_letter_ascii c || negb (is_ascii c) then None
  else Some (SChar c).

(** The members of a set up to the closing bracket; [start] is the position
    of the opening bracket. *)
Fixpoint p_items (start : nat) (s : str) (first : bool) (acc : list set_item)
         (pos : nat) : outcome (list set_item * nat * str) :=
  match s with
  | [] => Invalid "unterminated character set" start
  | c :: s1 =>
      if chr_is "]" c && negb first then Parsed (acc, S pos, s1)
      else if chr_is "\" c then
        match s1 with
        | [] => Invalid "unterminated character set" start
        | d :: s2 =>
            match p_set_escape d with
            | Some it =>
                match s2 with
                | e :: f :: _ =>
                    if chr_is "-" e && negb (chr_is "]" f) then Unsupported
                    else p_items start s2 false (acc ++ [it]) (pos + 2)
                | _ => p_items start s2 false (acc ++ [it]) (pos + 2)
                end
            | None => Unsupported
            end
        end
      else
        match s1 with
        | d :: s2 =>
            match s2 with
            | e :: s3 =>
                if chr_is "-" d && negb (chr_is "]" e) then
                  if chr_is "\" e then Unsupported
                  else if (e <? c)%N then Invalid "bad character range" pos
                  else p_items start s3 false (acc ++ [SRange c e]) (pos + 3)
                else p_items start s1 false (acc ++ [SChar c]) (S pos)
            | [] => p_items start s1 false (acc ++ [SChar c]) (S pos)
            end
        | [] => Invalid "unterminated character set" start
        end
  end.

(** A set; the opening bracket is at [pos] and [s] follows it. *)
Definition p_set (pos : nat) (s : str) : outcome (regex * nat * str) :=
  let '(neg, s1, pos1) :=
    match s with
    | c :: s' => if chr_is "^" c then (true, s', pos + 2) else (false, s, S pos)
    | [] => (false, s, S pos)
    end in
  match p_items pos s1 true [] pos1 with
  | Parsed (items, pos2, s2) => Parsed (RSet neg items, pos2, s2)
  | Invalid m p => Invalid m p
  | Unsupported => Unsupported
  end.

(** The letters of an inline flag group; [None] for a flag outside the
    fragment. *)
Fixpoint p_flagletters (s : str) (fl : flags) (n : nat)
  : option (flags * nat * str) :=
  match s with
  | c :: s' =>
      if chr_is "i" c then
        p_flagletters s' {| ignorecase := true; multiline := multiline fl;
                            dotall := dotall fl |} (S n)
      else if chr_is "m" c then
        p_flagletters s' {| ignorecase := ignorecase fl; multiline := true;
                            dotall := dotall fl |} (S n)
      else if chr_is "s" c then
        p_flagletters s' {| ignorecase := ignorecase fl; multiline := multiline fl;
                            dotall := true |} (S n)
      else if chr_is "a" c || chr_is "L" c || chr_is "u" c || chr_is "x" c then None
      else Some (fl, n, s)
  | [] => Some (fl, n, s)
  end.

Definition flags_meet (a b : flags) : bool :=
  (ignorecase a && ignorecase b) || (multiline a && multiline b)
  || (dotall a && dotall b).

(** What follows [(?]: the kind of group and where its body starts. *)
Inductive group_head :=
| GPlain (pos : nat) (s : str)
| GScoped (on off : flags) (pos : nat) (s : str)
| GInvalid (msg : string) (pos : nat)
| GUnsupported.

Definition p_group_head (pos : nat) (s : str) : group_head :=
  match s with
  | [] => GInvalid "missing ), unterminated subpattern" pos
  | q :: s1 =>
      if negb (chr_is "?" q) then GPlain (S pos) s
      else
        match s1 with
        | [] => GInvalid "unexpected end of pattern" (pos + 2)
        | c :: s2 =>
            if chr_is ":" c then GPlain (pos + 3) s2
            else if chr_is "P" c || chr_is "=" c || chr_is "!" c || chr_is "<" c || chr_is "#" c
                    || chr_is "(" c || chr_is ">" c
            then GUnsupported
            else
              match p_flagletters s1 no_flags 0 with
              | None => GUnsupported
              | Some (on, n, s3) =>
                  match s3 with
                  | [] => GInvalid "missing -, : or )" (pos + 2 + n)
                  | d :: s4 =>
                      if chr_is ")" d then GUnsupported
                      else if chr_is ":" d then
                        if n =? 0 then GInvalid "unknown extension" (pos + 1)
                        else GScoped on no_flags (pos + 3 + n) s4
                      else if chr_is "-" d then
                        match p_flagletters s4 no_flags 0 with
                        | None => GUnsupported
                        | Some (off, k, s5) =>
                            match s5 with
                            | e :: s6 =>
                                if k =? 0 then GInvalid "missing flag" (pos + 3 + n)
                                else if negb (chr_is ":" e)
                                then GInvalid "missing :" (pos + 3 + n + k)
                                else if flags_meet on off
                                then GInvalid "bad inline flags: flag turned on and off"
                                              (pos + 3 + n + k)
                                else GScoped on off (pos + 4 + n + k) s6
                            | [] => GInvalid "missing flag" (pos + 3 + n)
                            end
                        end
                      else if n =? 0 then GInvalid "unknown extension" (pos + 1)
                      else GInvalid "unknown flag" (pos + 2 + n)
                  end
              end
        end
  end.

(** The recursive descent: alternatives, sequences, items. *)
Fixpoint p_alt (fuel : nat) (pos : nat) (s : str) : outcome (regex * nat * str) :=
  match fuel with
  | 0 => Unsupported
  | S f =>
      match p_seq f pos s with
      | Parsed (r1, pos1, s1) =>
          match s1 with
          | c :: s2 =>
              if chr_is "|" c then
                match p_alt f (S pos1) s2 with
                | Parsed (r2, pos2, s3) => Parsed (RAlt r1 r2, pos2, s3)
                | e => e
                end
              else Parsed (r1, pos1, s1)
          | [] => Parsed (r1, pos1, s1)
          end
      | e => e
      end
  end
with p_seq (fuel : nat) (pos : nat) (s : str) : outcome (regex * nat * str) :=
  match fuel with
  | 0 => Unsupported
  | S f =>
      match s with
      | [] => Parsed (REmpty, pos, s)
      | c :: _ =>
          if chr_is "|" c || chr_is ")" c then Parsed (REmpty, pos, s)
          else
            match p_atom f pos s with
            | Parsed (a, pos1, s1) =>
                match p_quant a pos1 s1 with
                | Parsed (q, pos2, s2) =>
                    match p_seq f pos2 s2 with
                    | Parsed (r, pos3, s3) => Parsed (RSeq q r, pos3, s3)
                    | e => e
                    end
                | e => e
                end
            | e => e
            end
      end
  end
with p_atom (fuel : nat) (pos : nat) (s : str) : outcome (regex * nat * str) :=
  match fuel with
  | 0 => Unsupported
  | S f =>
      match s with
      | [] => Invalid "unexpected end of pattern" pos
      | c :: s1 =>
          if chr_is "(" c then
            let close wrap pos' s' :=
              match p_alt f pos' s' with
              | Parsed (r, pos1, s2) =>
                  match s2 with
                  | d :: s3 =>
                      if chr_is ")" d then Parsed (wrap r, S pos1, s3)
                      else Invalid "missing ), unterminated subpattern" pos
                  | [] => Invalid "missing ), unterminated subpattern" pos
                  end
              | e => e
              end in
            match p_group_head pos s1 with
            | GPlain pos' s' => close RGroup pos' s'
            | GScoped on off pos' s' => close (RFlags on off) pos' s'
            | GInvalid m p => Invalid m p
            | GUnsupported => Unsupported
            end
          else if chr_is "[" c then p_set pos s1
          else if chr_is "\" c then p_escape pos s1
          else if chr_is "." c then Parsed (RAny, S pos, s1)
          else if chr_is "^" c then Parsed (RAt ABegin, S pos, s1)
          else if chr_is "$" c then Parsed (RAt AEnd, S pos, s1)
          else match p_repeat s with
               | Some _ => Invalid "nothing to repeat" pos
               | None => Parsed (RLit c, S pos, s1)
               end
      end
  end.

(** [sre_parse.parse] on the fragment. *)
Definition parse (p : str) : outcome regex :=
  match p_alt (4 * length p + 4) 0 p with
  | Parsed (r, pos, []) => Parsed r
  | Parsed (_, pos, _ :: _) => Invalid "unbalanced parenthesis" pos
  | Invalid m pos => Invalid m pos
  | Unsupported => Unsupported
  end.

(** [str(e)] of the [re.error] the parser raises. *)
Definition error_message (msg : string) (pos : nat) : str :=
  py msg ++ py " at position " ++ str_of_int (Z.of_nat pos).

End ReParse.

(** ** Codecs *)

Module Codecs.
Import Py.

(** What a decoder finds at the head of the remaining bytes: one code point
    made of [1 + extra] bytes, or [1 + extra] bytes that cannot be decoded
    (the range handed to the error handler, with the reason). *)
Inductive dec_result :=
| DecChar (c : char) (extra : nat)
| DecError (extra : nat) (reason : str).

(** The [errors=] argument of [open]. *)
Inductive errors := Strict | Replace.

(** A codec, as the text layer of [open] uses it.  [decode errs data] is
    what a fresh incremental decoder made for [errs] does with the whole
    content of the file: the text, or the class and the message of the
    exception it raises.  A decoder is free to raise whatever [errs] is.
    [encode] is strict: the bytes, or the message of the
    [UnicodeEncodeError]. *)
Record codec := {
  decode : errors -> bytes -> (cls * str) + str;
  encode : str -> str + bytes
}.

Definition REPLACEMENT_CHARACTER : char := 65533%N.     (* U+FFFD *)

(** Decoding item by item with an error handler, for a decoder that reports
    what it cannot decode to the handler.  [skip] counts the bytes that
    still belong to the item found last.  [Strict] raises at the first
    undecodable range; [Replace] puts U+FFFD for the range and resumes
    after it. *)
Fixpoint decode_from (decode_one : bytes -> dec_result) (h : errors) (bs : bytes)
         (skip : nat) : (cls * str) + str :=
  match bs with
  | [] => inr []
  | _ :: bs' =>
      match skip with
      | S k => decode_from decode_one h bs' k
      | 0 =>
          match decode_one bs with
          | DecChar ch extra =>
              match decode_from decode_one h bs' extra with
              | inr s => inr (ch :: s)
              | inl e => inl e
              end
          | DecError extra reason =>
              match h with
              | Strict => inl (UnicodeDecodeError, reason)
              | Replace =>
                  match decode_from decode_one h bs' extra with
                  | inr s => inr (REPLACEMENT_CHARACTER :: s)
                  | inl e => inl e
                  end
              end
          end
      end
  end.

Definition decode_with (decode_one : bytes -> dec_result) (h : errors) (bs : bytes)
  : (cls * str) + str :=
  decode_from decode_one h bs 0.

(** The decoders for which the error handler has the last word: all that
    the codec does on decoding is [decode_with] of some [decode_one]. *)
Definition reports_to_handler (c : codec) (decode_one : bytes -> dec_result) : Prop :=
  forall h bs, decode c h bs = decode_with decode_one h bs.

(** Four codecs of the standard library.  Their error messages are
    shortened: CPython also names the offending byte or character and its
    position. *)
Fixpoint encode_chars (enc1 : char -> option bytes) (what : str) (s : str)
  : str + bytes :=
  match s with
  | [] => inr []
  | c :: s' =>
      match enc1 c with
      | None => inl what
      | Some bs =>
          match encode_chars enc1 what s' with
          | inr rest => inr (bs ++ rest)
          | inl m => inl m
          end
      end
  end.

Definition ascii_decode_one (bs : bytes) : dec_result :=
  match bs with
  | b :: _ => if (b <? 128)%N then DecChar b 0
              else DecError 0 (py "'ascii' codec can't decode byte: ordinal not in range(128)")
  | [] => DecError 0 []
  end.

Definition ascii_codec : codec := {|
  decode := decode_with ascii_decode_one;
  encode :=
    encode_chars (fun c => if (c <? 128)%N then Some [c] else None)
      (py "'ascii' codec can't encode character: ordinal not in range(128)")
|}.

Definition latin_1_decode_one (bs : bytes) : dec_result :=
  match bs with
  | b :: _ => DecChar b 0
  | [] => DecError 0 []
  end.

Definition latin_1_codec : codec := {|
  decode := decode_with latin_1_decode_one;
  encode :=
    encode_chars (fun c => if (c <? 256)%N then Some [c] else None)
      (py "'latin-1' codec can't encode character: ordinal not in range(256)")
|}.

Definition is_cont (b : N) : bool := (128 <=? b)%N && (b <=? 191)%N.
Definition cont_bits (b : N) : N := N.land b 63.

(** The second byte of a three or four byte sequence has a narrower range
    after the lead bytes E0, ED, F0 and F4. *)
Definition second_ok (b0 b1 : N) : bool :=
  if (b0 =? 224)%N then (160 <=? b1)%N && (b1 <=? 191)%N
  else if (b0 =? 237)%N then (128 <=? b1)%N && (b1 <=? 159)%N
  else if (b0 =? 240)%N then (144 <=? b1)%N && (b1 <=? 191)%N
  else if (b0 =? 244)%N then (128 <=? b1)%N && (b1 <=? 143)%N
  else is_cont b1.

Definition utf8_invalid_start : str := py "'utf-8' codec can't decode byte: invalid start byte".
Definition utf8_invalid_cont : str := py "'utf-8' codec can't decode byte: invalid continuation byte".
Definition utf8_truncated : str := py "'utf-8' codec can't decode bytes: unexpected end of data".

Definition utf8_decode_one (bs : bytes) : dec_result :=
  match bs with
  | [] => DecError 0 []
  | b0 :: r0 =>
      if (b0 <? 128)%N then DecChar b0 0
      else if (b0 <? 194)%N then DecError 0 utf8_invalid_start
      else if (b0 <? 224)%N then
        match r0 with
        | [] => DecError 0 utf8_truncated
        | b1 :: _ =>
            if is_cont b1
            then DecChar (N.shiftl (N.land b0 31) 6 + cont_bits b1)%N 1
            else DecError 0 utf8_invalid_cont
        end
      else if (b0 <? 240)%N then
        match r0 with
        | [] => DecError 0 utf8_truncated
        | b1 :: r1 =>
            if negb (second_ok b0 b1) then DecError 0 utf8_invalid_cont
            else
              match r1 with
              | [] => DecError 1 utf8_truncated
              | b2 :: _ =>
                  if is_cont b2
                  then DecChar (N.shiftl (N.land b0 15) 12
                                + N.shiftl (cont_bits b1) 6 + cont_bits b2)%N 2
                  else DecError 1 utf8_invalid_cont
              end
        end
      else if (b0 <? 245)%N then
        match r0 with
        | [] => DecError 0 utf8_truncated
        | b1 :: r1 =>
            if negb (second_ok b0 b1) then DecError 0 utf8_invalid_cont
            else
              match r1 with
              | [] => DecError 1 utf8_truncated
              | b2 :: r2 =>
                  if negb (is_cont b2) then DecError 1 utf8_invalid_cont
                  else
                    match r2 with
                    | [] => DecError 2 utf8_truncated
                    | b3 :: _ =>
                        if is_cont b3
                        then DecChar (N.shiftl (N.land b0 7) 18
                                      + N.shiftl (cont_bits b1) 12
                                      + N.shiftl (cont_bits b2) 6 + cont_bits b3)%N 3
                        else DecError 2 utf8_invalid_cont
                    end
              end
        end
      else DecError 0 utf8_invalid_start
  end.

Definition utf8_encode_one (c : char) : option bytes :=
  if (c <? 128)%N then Some [c]
  else if (c <? 2048)%N then
    Some [(192 + N.shiftr c 6)%N; (128 + N.land c 63)%N]
  else if (55296 <=? c)%N && (c <=? 57343)%N then None       (* surrogates *)
  else if (c <? 65536)%N then
    Some [(224 + N.shiftr c 12)%N; (128 + N.land (N.shiftr c 6) 63)%N;
          (128 + N.land c 63)%N]
  else if (c <? 1114112)%N then
    Some [(240 + N.shiftr c 18)%N; (128 + N.land (N.shiftr c 12) 63)%N;
          (128 + N.land (N.shiftr c 6) 63)%N; (128 + N.land c 63)%N]
  else None.

Definition utf_8_codec : codec := {|
  decode := decode_with utf8_decode_one;
  encode :=
    encode_chars utf8_encode_one
      (py "'utf-8' codec can't encode character: surrogates not allowed")
|}.

(** UTF-16.  A code unit is two bytes in the given byte order. *)
Definition utf16_unit (little_endian : bool) (b0 b1 : N) : N :=
  if little_endian then (b0 + 256 * b1)%N else (256 * b0 + b1)%N.

Definition is_high_surrogate (u : N) : bool := (55296 <=? u)%N && (u <=? 56319)%N.
Definition is_low_surrogate (u : N) : bool := (56320 <=? u)%N && (u <=? 57343)%N.

Definition utf16_truncated : str := py "'utf-16' codec can't decode byte: truncated data".
Definition utf16_unexpected_end : str :=
  py "'utf-16' codec can't decode bytes: unexpected end of data".
Definition utf16_illegal_encoding : str :=
  py "'utf-16' codec can't decode bytes: illegal encoding".
Definition utf16_illegal_surrogate : str :=
  py "'utf-16' codec can't decode bytes: illegal UTF-16 surrogate".

(** A unit outside the surrogates is a code point; a high surrogate needs a
    low one after it.  A lone low surrogate and a high surrogate with
    another unit after it are undecodable ranges of two bytes; a high
    surrogate or a single byte at the end is undecodable up to the end. *)
Definition utf16_decode_one (little_endian : bool) (bs : bytes) : dec_result :=
  match bs with
  | [] => DecError 0 []
  | [_] => DecError 0 utf16_truncated
  | b0 :: b1 :: r =>
      let u := utf16_unit little_endian b0 b1 in
      if is_high_surrogate u then
        match r with
        | [] => DecError 1 utf16_unexpected_end
        | [_] => DecError 2 utf16_unexpected_end
        | b2 :: b3 :: _ =>
            let u2 := utf16_unit little_endian b2 b3 in
            if is_low_surrogate u2
            then DecChar (65536 + (u - 55296) * 1024 + (u2 - 56320))%N 3
            else DecError 1 utf16_illegal_surrogate
        end
      else if is_low_surrogate u then DecError 1 utf16_illegal_encoding
      else DecChar u 1
  end.

Definition utf16_no_bom : str := py "UTF-16 stream does not start with BOM".

(** The decoder of [utf-16] takes the byte order from the byte order mark
    and drops the mark.  Without a mark it decodes in the byte order of the
    machine, with the error handler, and then, if there were two bytes or
    more, raises a [UnicodeError] of its own, which no error handler
    sees. *)
Definition utf_16_decode (little_endian : bool) (h : errors) (bs : bytes)
  : (cls * str) + str :=
  match bs with
  | 255%N :: 254%N :: rest => decode_with (utf16_decode_one true) h rest
  | 254%N :: 255%N :: rest => decode_with (utf16_decode_one false) h rest
  | _ =>
      match decode_with (utf16_decode_one little_endian) h bs with
      | inl e => inl e
      | inr text =>
          if 2 <=? length bs then inl (UnicodeError, utf16_no_bom) else inr text
      end
  end.

Definition utf16_bytes (little_endian : bool) (u : N) : bytes :=
  if little_endian then [N.land u 255; N.shiftr u 8] else [N.shiftr u 8; N.land u 255].

Definition utf16_encode_one (little_endian : bool) (c : char) : option bytes :=
  if (c <? 55296)%N then Some (utf16_bytes little_endian c)
  else if (c <=? 57343)%N then None                          (* surrogates *)
  else if (c <? 65536)%N then Some (utf16_bytes little_endian c)
  else if (c <? 1114112)%N then
    Some (utf16_bytes little_endian (55296 + N.shiftr (c - 65536) 10)
          ++ utf16_bytes little_endian (56320 + N.land (c - 65536) 1023))
  else None.

(** The encoder writes the byte order mark, then the units in the byte
    order of the machine. *)
Definition utf_16_encode (little_endian : bool) (s : str) : str + bytes :=
  match encode_chars (utf16_encode_one little_endian)
          (py "'utf-16' codec can't encode character: surrogates not allowed") s with
  | inr data => inr (utf16_bytes little_endian 65279 ++ data)
  | inl msg => inl msg
  end.

Definition utf_16_codec (little_endian : bool) : codec := {|
  decode := utf_16_decode little_endian;
  encode := utf_16_encode little_endian
|}.

End Codecs.

(** ** What the program takes from its host *)

Module Host.
Import Py Re Codecs.

(** The namespace that [parser.parse_args()] returns. *)
Record Namespace := {
  input_file : str;
  output_file : str;
  column_name_pattern : str;
  column_prefix : str;
  encoding : str
}.

(** What [parse_args] does with a command line: it returns the namespace,
    reports a usage error (and exits with status 2), or prints the help
    (and exits with status 0). *)
Inductive parsed :=
| Parsed_args (args : Namespace)
| Usage_error (msg : str)
| Help_requested.

Record host := {
  ucd : unicode_data;
  (** [argparse] on a command line in which some argument starts with a
      hyphen (options, their values, abbreviations) *)
  argparse_options : list str -> parsed;
  (** [chardet.detect(rawdata)['encoding']] *)
  chardet_detect : bytes -> option str;
  (** the codec registry: [codecs.lookup], [None] for an unknown name *)
  codecs_lookup : str -> option codec;
  (** [sre_parse]: the syntax tree of a pattern, or the message of the
      [re.error] *)
  re_parse : str -> str + regex;
  (** [repr] of a string, as it appears in the message of an [OSError] *)
  repr : str -> str;
  (** [os.linesep] *)
  linesep : str
}.

End Host.

(** ** The program *)

Module Main.
Import Py Re Codecs Host.

(** *** The file system, the log and the process *)

Inductive node :=
| File (data : bytes) (readable writable : bool)
| Directory.

Inductive errno := ENOENT | EACCES | EISDIR | EROFS.

(** The files that exist, and for paths that do not exist but cannot be
    created either (no such directory, directory not writable) the error
    that [open] reports. *)
Record world := {
  files : gmap str node;
  uncreatable : gmap str errno
}.

Inductive level := INFO | ERROR.

Inductive event :=
| Log (l : level) (msg : str)              (* [logging.info], [logging.error] *)
| PrintHelp                                (* [parser.print_help()] *)
| Usage (msg : str).                       (* the usage error of [parser.error] *)

Record state := { w : world; trace : list event }.

(** The outcome of a computation: it returns, raises, or the model ran out
    of fuel (which the theorems below exclude). *)
Inductive result (A : Type) :=
| Ok (a : A)
| Raise (e : exn)
| OutOfFuel.
Arguments Ok {A} a.
Arguments Raise {A} e.
Arguments OutOfFuel {A}.

Definition M (A : Type) : Type := state -> result A * state.

Definition ret {A} (a : A) : M A := fun s => (Ok a, s).
Definition raise {A} (e : exn) : M A := fun s => (Raise e, s).
Definition bind {A B} (m : M A) (f : A -> M B) : M B :=
  fun s =>
    match m s with
    | (Ok a, s') => f a s'
    | (Raise e, s') => (Raise e, s')
    | (OutOfFuel, s') => (OutOfFuel, s')
    end.

Notation "'let*' x := m 'in' k" := (bind m (fun x => k))
  (at level 10, x name, m at level 100, k at level 200).

(** [try: body except C1 ...: h1 except C2 ...: h2 ...]: the first clause
    whose class the exception is an instance of handles it; [SystemExit]
    is no [Exception] and passes through. *)
Fixpoint dispatch {A} (handlers : list (cls * (exn -> M A))) (e : exn) : M A :=
  match handlers with
  | [] => raise e
  | (c, h) :: rest => if isinstance e c then h e else dispatch rest e
  end.

Definition try_except {A} (body : M A) (handlers : list (cls * (exn -> M A))) : M A :=
  fun s =>
    match body s with
    | (Raise e, s') => dispatch handlers e s'
    | other => other
    end.

Definition add_event (s : state) (e : event) : state :=
  {| w := w s; trace := trace s ++ [e] |}.

Definition logging_info (msg : str) : M unit :=
  fun s => (Ok tt, add_event s (Log INFO msg)).
Definition logging_error (msg : str) : M unit :=
  fun s => (Ok tt, add_event s (Log ERROR msg)).
Definition print_help : M unit :=
  fun s => (Ok tt, add_event s PrintHelp).
Definition sys_exit {A} (code : Z) : M A := raise (SystemExit code).

Definition get_world : M world := fun s => (Ok (w s), s).
Definition put_files (fs : gmap str node) : M unit :=
  fun s => (Ok tt, {| w := {| files := fs; uncreatable := uncreatable (w s) |};
                     trace := trace s |}).

Section Program.
Context (h : host).

(** The [OSError] of a failed [open]. *)
Definition os_error (e : errno) (path : str) : exn :=
  match e with
  | ENOENT => Exn FileNotFoundError
                (py "[Errno 2] No such file or directory: " ++ repr h path)
  | EACCES => Exn PermissionError
                (py "[Errno 13] Permission denied: " ++ repr h path)
  | EISDIR => Exn IsADirectoryError
                (py "[Errno 21] Is a directory: " ++ repr h path)
  | EROFS => Exn OSError
                (py "[Errno 30] Read-only file system: " ++ repr h path)
  end.

(** Opening the raw file for reading gives its bytes. *)
Definition open_raw_read (path : str) : M bytes :=
  let* wd := get_world in
  match files wd !! path with
  | None => raise (os_error ENOENT path)
  | Some Directory => raise (os_error EISDIR path)
  | Some (File data readable _) =>
      if readable then ret data else raise (os_error EACCES path)
  end.

(** Opening the raw file for writing creates it or truncates it. *)
Definition open_raw_write (path : str) : M unit :=
  let* wd := get_world in
  match files wd !! path with
  | None =>
      match uncreatable wd !! path with
      | Some e => raise (os_error e path)
      | None => put_files (<[path := File [] true true]> (files wd))
      end
  | Some Directory => raise (os_error EISDIR path)
  | Some (File _ readable writable) =>
      if writable
      then put_files (<[path := File [] readable writable]> (files wd))
      else raise (os_error EACCES path)
  end.

(** Storing the bytes written through an open file. *)
Definition raw_write (path : str) (data : bytes) : M unit :=
  let* wd := get_world in
  match files wd !! path with
  | Some (File _ readable writable) =>
      put_files (<[path := File data readable writable]> (files wd))
  | _ => ret tt
  end.

Definition lookup_codec (encoding : str) : M codec :=
  match codecs_lookup h encoding with
  | Some c => ret c
  | None => raise (Exn LookupError (py "unknown encoding: " ++ encoding))
  end.

(** Universal newlines on reading: CR LF and CR become LF. *)
Fixpoint translate_newlines (s : str) : str :=
  match s with
  | [] => []
  | c :: s' =>
      if (c =? 13)%N then
        match s' with
        | d :: s'' => if (d =? 10)%N then 10%N :: translate_newlines s''
                      else 10%N :: translate_newlines s'
        | [] => [10%N]
        end
      else c :: translate_newlines s'
  end.

(** On writing, LF becomes [os.linesep]. *)
Definition write_newlines (s : str) : str :=
  flat_map (fun c => if (c =? 10)%N then linesep h else [c]) s.

(** [with open(path, 'rb') as f: f.read()] *)
Definition read_binary (path : str) : M bytes := open_raw_read path.

(** [with open(path, "r", encoding=encoding, errors=errors) as f: f.read()]:
    the raw file is opened first, then the text layer looks the codec
    up. *)
Definition read_text (path encoding : str) (errs : errors) : M str :=
  let* data := open_raw_read path in
  let* c := lookup_codec encoding in
  match decode c errs data with
  | inr s => ret (translate_newlines s)
  | inl (k, msg) => raise (Exn k msg)
  end.

(** [with open(path, "w", encoding=encoding) as f: f.write(text)]: the
    file is created or truncated when it is opened; the text is encoded
    as a whole before anything is stored. *)
Definition write_text (path encoding : str) (text : str) : M unit :=
  let* _ := open_raw_write path in
  let* c := lookup_codec encoding in
  match encode c (write_newlines text) with
  | inr data => raw_write path data
  | inl msg => raise (Exn UnicodeEncodeError msg)
  end.

(** [re.sub(pattern, repl, string, flags=flags)] with a callable [repl]:
    the pattern is compiled, then [pattern_subx] runs. *)
Definition re_sub {S : Type} (pattern : str) (repl : Match -> S -> str * S)
           (string : str) (fl : flags) (st : S) : result (str * S) :=
  match re_parse h pattern with
  | inl msg => Raise (Exn re_error msg)
  | inr r =>
      match pattern_sub (ucd h) repl r fl string st with
      | Some out => Ok out
      | None => OutOfFuel
      end
  end.

(** *** Lines 75 to 82: the substitution pass *)

(** The callback; [column_count] is the variable of the enclosing scope
    that it updates. *)
Definition replace_column_name (column_prefix : str) (_ : Match)
           (column_count : Z) : str * Z :=
  let replacement := column_prefix ++ str_of_int column_count in
  (replacement, (column_count + 1)%Z).

(** The pass returns the new text and the final value of the counter. *)
Definition substitute (column_name_pattern column_prefix table_definition : str)
  : result (str * Z) :=
  let column_count := 1%Z in
  re_sub column_name_pattern (replace_column_name column_prefix)
         table_definition IGNORECASE column_count.

Definition lift {A} (r : result A) : M A := fun s => (r, s).

(** *** [anonymize_table_definition] *)

Definition is_auto (encoding : str) : bool :=
  str_eqb (lower (ucd h) encoding) (py "auto").

(** [f"{encoding}"] for a value that may be [None]. *)
Definition fmt_opt (o : option str) : str :=
  match o with
  | Some s => s
  | None => py "None"
  end.

(** Lines 61 to 68: the encoding to use. *)
Definition resolve_encoding (input_file encoding : str) : M str :=
  if is_auto encoding then
    let* rawdata := read_binary input_file in
    let result := chardet_detect h rawdata in
    let* _ := logging_info (py "Detected encoding: " ++ fmt_opt result) in
    match result with
    | None => raise (Exn ValueError (py "Unable to automatically detect file encoding."))
    | Some detected => ret detected
    end
  else ret encoding.

(** Lines 70 to 82: read the input and substitute. *)
Definition read_and_substitute
           (input_file column_name_pattern column_prefix encoding : str) : M str :=
  let* table_definition := read_text input_file encoding Replace in
  let* out := lift (substitute column_name_pattern column_prefix table_definition) in
  ret (fst out).

(** Lines 70 to 88: what the [try] does once the encoding is settled. *)
Definition with_encoding
           (input_file output_file column_name_pattern column_prefix encoding : str)
  : M unit :=
  let* anonymized_definition :=
    read_and_substitute input_file column_name_pattern column_prefix encoding in
  let* _ := write_text output_file encoding anonymized_definition in
  logging_info (py "Anonymized table definition written to " ++ output_file).

(** Lines 59 to 88: the body of the [try]. *)
Definition try_body (input_file output_file column_name_pattern column_prefix
                     encoding : str) : M unit :=
  let* encoding' := resolve_encoding input_file encoding in
  with_encoding input_file output_file column_name_pattern column_prefix encoding'.

(** Lines 60 to 82: the part of the body that comes before the output
    file is opened. *)
Definition before_output (input_file column_name_pattern column_prefix encoding : str)
  : M str :=
  let* encoding' := resolve_encoding input_file encoding in
  read_and_substitute input_file column_name_pattern column_prefix encoding'.

(** Lines 90 to 104: the [except] clauses, in order. *)
Definition handlers (input_file : str) : list (cls * (exn -> M unit)) :=
  [ (FileNotFoundError, fun _ =>
       let* _ := logging_error (py "Error: Input file '" ++ input_file ++ py "' not found.") in
       sys_exit 1);
    (IOError, fun e =>
       let* _ := logging_error (py "IOError: " ++ str_of_exn e) in
       sys_exit 1);
    (re_error, fun e =>
       let* _ := logging_error (py "Regex Error: Invalid regular expression: " ++ str_of_exn e) in
       sys_exit 1);
    (ValueError, fun e =>
       let* _ := logging_error (py "ValueError: " ++ str_of_exn e) in
       sys_exit 1);
    (Exception, fun e =>
       let* _ := logging_error (py "An unexpected error occurred: " ++ str_of_exn e) in
       sys_exit 1) ].

Definition anonymize_table_definition
           (input_file output_file column_name_pattern column_prefix encoding : str)
  : M unit :=
  try_except
    (try_body input_file output_file column_name_pattern column_prefix encoding)
    (handlers input_file).

(** *** [main] *)

(** The defaults of [setup_argparse]. *)
Definition default_column_name_pattern : str :=
  py "\b(\w+_name|\w+_address|\w+_phone|\w+_email|\w+_id)\b".
Definition default_column_prefix : str := py "column_".
Definition default_encoding : str := py "utf-8".

Definition starts_with_hyphen (a : str) : bool :=
  match a with
  | c :: _ => (c =? 45)%N
  | [] => false
  end.

(** [" ".join(...)] *)
Fixpoint join_spaces (l : list str) : str :=
  match l with
  | [] => []
  | [a] => a
  | a :: l' => a ++ 32%N :: join_spaces l'
  end.

(** Lines 17 to 44 with [parse_args]: the parser has two required
    positionals and three options with defaults.  When no argument starts
    with a hyphen, the arguments are the positionals in order: two of them
    give the namespace, fewer or more are a usage error.  Other command
    lines are left to the host. *)
Definition argparse (argv : list str) : parsed :=
  if forallb (fun a => negb (starts_with_hyphen a)) argv then
    match argv with
    | [] => Usage_error (py "the following arguments are required: input_file, output_file")
    | [_] => Usage_error (py "the following arguments are required: output_file")
    | [i; o] =>
        Parsed_args {| input_file := i; output_file := o;
                       column_name_pattern := default_column_name_pattern;
                       column_prefix := default_column_prefix;
                       encoding := default_encoding |}
    | _ :: _ :: extra => Usage_error (py "unrecognized arguments: " ++ join_spaces extra)
    end
  else argparse_options h argv.

(** [parser.parse_args()]: [parser.error] prints the usage and exits with
    status 2; the help action exits with status 0. *)
Definition parse_args (argv : list str) : M Namespace :=
  match argparse argv with
  | Parsed_args args => ret args
  | Usage_error msg => fun s => (Raise (SystemExit 2), add_event s (Usage msg))
  | Help_requested => let* _ := print_help in sys_exit 0
  end.

(** [not s] for a string. *)
Definition falsy (s : str) : bool :=
  match s with [] => true | _ => false end.

Definition main (argv : list str) : M unit :=
  let* args := parse_args argv in
  let* _ :=
    (if falsy (input_file args) || falsy (output_file args) then
       let* _ := logging_error (py "Error: Input and output file paths must be specified.") in
       let* _ := print_help in
       sys_exit 1
     else ret tt) in
  try_except
    (anonymize_table_definition (input_file args) (output_file args)
       (column_name_pattern args) (column_prefix args) (encoding args))
    [ (Exception, fun e =>
         let* _ := logging_error (py "An error occurred: " ++ str_of_exn e) in
         sys_exit 1) ].

(** The exit status of the process that runs [main]: 0 when it returns,
    the code of a [SystemExit], 1 for any other exception that gets out;
    [None] when the model ran out of fuel. *)
Definition exit_status (r : result unit) : option Z :=
  match r with
  | Ok _ => Some 0%Z
  | Raise (SystemExit code) => Some code
  | Raise (Exn _ _) => Some 1%Z
  | OutOfFuel => None
  end.

(** [if __name__ == "__main__": main()] on the command line [argv] (without
    the program name). *)
Definition run (argv : list str) (s : state) : option Z * state :=
  let (r, s') := main argv s in (exit_status r, s').
End Program.

End Main.

(** ** The host used in the examples *)

Module Host0.
Import Py Re ReParse Codecs Host Main.

(** No entries above the ASCII range. *)
Definition ucd0 : unicode_data := {|
  u_tolower := fun c => c;
  u_isalnum := fun _ => false;
  u_isdecimal := fun _ => false;
  u_isspace := fun _ => false;
  u_lower := fun c => [c]
|}.

(** Codec names are looked up in lower case with hyphens as underscores. *)
Definition normalize_encoding (name : str) : str :=
  map (fun c => if (c =? 45)%N then 95%N else lower_ascii c) name.

Definition lookup0 (name : str) : option codec :=
  let n := normalize_encoding name in
  if str_eqb n (py "utf_8") || str_eqb n (py "utf8") then Some utf_8_codec
  else if str_eqb n (py "ascii") || str_eqb n (py "us_ascii") then Some ascii_codec
  else if str_eqb n (py "latin_1") || str_eqb n (py "latin1")
          || str_eqb n (py "iso_8859_1")
  then Some latin_1_codec
  else if str_eqb n (py "utf_16") || str_eqb n (py "utf16") || str_eqb n (py "u16")
  then Some (utf_16_codec true)                      (* a little-endian machine *)
  else None.

(** A stand-in for the detector: data that is all ASCII and not empty is
    reported as [ascii], other data is not recognised. *)
Definition detect0 (rawdata : bytes) : option str :=
  match rawdata with
  | [] => None
  | _ => if forallb (fun b => (b <? 128)%N) rawdata then Some (py "ascii") else None
  end.

Definition parse0 (pattern : str) : str + regex :=
  match parse pattern with
  | Parsed r => inr r
  | Invalid msg pos => inl (error_message msg pos)
  | Unsupported => inl (py "pattern outside the fragment")
  end.

(** The tree of a pattern of the fragment (the empty pattern's otherwise). *)
Definition regex_of (pattern : str) : regex :=
  match parse0 pattern with
  | inr r => r
  | inl _ => REmpty
  end.

(** [repr] of a string of printable ASCII without quotes or backslashes. *)
Definition repr0 (s : str) : str := py "'" ++ s ++ py "'".

(** A stand-in for the option handling of [argparse]: option names written
    in full, each followed by its value, and [-h] or [--help]. *)
Fixpoint scan_options (argv positionals : list str) (pat pre enc : str) : parsed :=
  match argv with
  | [] =>
      match positionals with
      | [] => Usage_error (py "the following arguments are required: input_file, output_file")
      | [_] => Usage_error (py "the following arguments are required: output_file")
      | [i; o] =>
          Parsed_args {| input_file := i; output_file := o; column_name_pattern := pat;
                         column_prefix := pre; encoding := enc |}
      | _ :: _ :: extra => Usage_error (py "unrecognized arguments: " ++ join_spaces extra)
      end
  | a :: rest =>
      if str_eqb a (py "-h") || str_eqb a (py "--help") then Help_requested
      else if str_eqb a (py "--column_name_pattern") then
        match rest with
        | v :: rest' => scan_options rest' positionals v pre enc
        | [] => Usage_error (py "argument --column_name_pattern: expected one argument")
        end
      else if str_eqb a (py "--column_prefix") then
        match rest with
        | v :: rest' => scan_options rest' positionals pat v enc
        | [] => Usage_error (py "argument --column_prefix: expected one argument")
        end
      else if str_eqb a (py "--encoding") then
        match rest with
        | v :: rest' => scan_options rest' positionals pat pre v
        | [] => Usage_error (py "argument --encoding: expected one argument")
        end
      else if starts_with_hyphen a then Usage_error (py "unrecognized arguments: " ++ a)
      else scan_options rest (positionals ++ [a]) pat pre enc
  end.

Definition options0 (argv : list str) : parsed :=
  scan_options argv [] default_column_name_pattern default_column_prefix default_encoding.

Definition host0 : host := {|
  ucd := ucd0;
  argparse_options := options0;
  chardet_detect := detect0;
  codecs_lookup := lookup0;
  re_parse := parse0;
  repr := repr0;
  linesep := [10%N]
|}.

(** A file system with one input file, and command lines over it. *)
Definition table : str := py "CREATE TABLE t (user_id INT, User_Email TEXT);".

Definition world0 : world := {|
  files := {[ py "in.sql" := File table true true ]};
  uncreatable := {[ py "nodir/out.sql" := ENOENT ]}
|}.

Definition state0 : state := {| w := world0; trace := [] |}.

Definition argv0 : list str := [py "in.sql"; py "out.sql"].

(** What a run leaves: the status, the file at [path], the log. *)
Definition observe (argv : list str) (path : str) (s : state)
  : option Z * option node * list event :=
  let (code, s') := run host0 argv s in
  (code, files (w s') !! path, trace s').

End Host0.

(** ** Specification-side definitions *)

Module Spec.
Import Py Re Host Main.

(** The text with the spans [ms] (taken from position [i] on) replaced, in
    order, by the strings [reps]; everything outside the spans is kept. *)
Fixpoint splice (t : str) (i : nat) (ms : list (nat * nat)) (reps : list str) : str :=
  match ms, reps with
  | (b, e) :: ms', rep :: reps' => slice t i b ++ rep ++ splice t e ms' reps'
  | _, _ => drop i t
  end.

(** The replacement of the Nth match is the prefix followed by N in
    decimal, N counting from 1. *)
Definition numbered (prefix : str) (count : nat) : list str :=
  map (fun n => prefix ++ str_of_int (Z.of_nat n)) (seq 1 count).

(** The matched substrings themselves. *)
Definition matched (t : str) (ms : list (nat * nat)) : list str :=
  map (fun m => slice t (fst m) (snd m)) ms.

(** Spans in left-to-right order that do not overlap, none starting before
    [i]. *)
Fixpoint spans_ok (t : str) (i : nat) (ms : list (nat * nat)) : Prop :=
  match ms with
  | [] => True
  | (b, e) :: ms' => i <= b /\ b <= e /\ e <= length t /\ spans_ok t e ms'
  end.

(** Two texts that differ at most in the case of ASCII letters. *)
Definition same_modulo_case (t1 t2 : str) : Prop :=
  map lower_ascii t1 = map lower_ascii t2.

(** No scoped group of the pattern turns IGNORECASE off. *)
Fixpoint keeps_ignorecase (r : regex) : bool :=
  match r with
  | RSeq r1 r2 | RAlt r1 r2 => keeps_ignorecase r1 && keeps_ignorecase r2
  | RRepeat _ _ _ r' | RGroup r' => keeps_ignorecase r'
  | RFlags _ off r' => negb (ignorecase off) && keeps_ignorecase r'
  | _ => true
  end.

(** The failure categories of the specification, the exception classes
    that fall into each, and the line that reports each. *)
Inductive failure := NotFound | IOFailure | PatternError | ValueFailure | Unexpected.

Definition failure_of (c : cls) : failure :=
  match c with
  | FileNotFoundError => NotFound
  | OSError | PermissionError | IsADirectoryError => IOFailure
  | re_error => PatternError
  | ValueError | UnicodeError | UnicodeDecodeError | UnicodeEncodeError => ValueFailure
  | LookupError | Exception => Unexpected
  end.

Definition report (input_file : str) (k : failure) (msg : str) : str :=
  match k with
  | NotFound => py "Error: Input file '" ++ input_file ++ py "' not found."
  | IOFailure => py "IOError: " ++ msg
  | PatternError => py "Regex Error: Invalid regular expression: " ++ msg
  | ValueFailure => py "ValueError: " ++ msg
  | Unexpected => py "An unexpected error occurred: " ++ msg
  end.

(** The lower-case forms of the code points above ASCII are not empty and
    do not begin with one of the letters of [auto]. *)
Definition lower_keeps_off_auto (u : unicode_data) : Prop :=
  forall c, is_ascii c = false ->
    match u_lower u c with
    | [] => False
    | d :: _ => d <> 97%N /\ d <> 117%N /\ d <> 116%N /\ d <> 111%N
    end.

(** The sixteen spellings of [auto]. *)
Definition spells_auto (encoding : str) : Prop :=
  match encoding with
  | [a; u; t; o] =>
      (a = 97 \/ a = 65)%N /\ (u = 117 \/ u = 85)%N
      /\ (t = 116 \/ t = 84)%N /\ (o = 111 \/ o = 79)%N
  | _ => False
  end.

(** *** Notions used in the proofs *)

(** A matcher that succeeds has called its continuation at a position
    not before the start and within the text. *)
Definition reaches (t : str) (body : nat -> (nat -> option nat) -> option nat) : Prop :=
  forall p k e, body p k = Some e ->
    exists p', p <= p' /\ (p <= length t -> p' <= length t) /\ k p' = Some e.

(** A matcher looks at its continuation only at positions from the start
    to the end of the text. *)
Definition local (t : str) (body : nat -> (nat -> option nat) -> option nat) : Prop :=
  forall p k1 k2, p <= length t ->
    (forall q, p <= q <= length t -> k1 q = k2 q) -> body p k1 = body p k2.

(** The measure that each turn of the scanning loops decreases. *)
Definition turns_left (t : str) (start : nat) (adv : bool) : nat :=
  2 * (length t - start) + (if adv then 0 else 1).

(** What the callback returns over a list of matches, and its final
    state. *)
Fixpoint replacements {S : Type} (filter : Match -> S -> str * S)
         (ms : list (nat * nat)) (st : S) : list str * S :=
  match ms with
  | [] => ([], st)
  | (b, e) :: ms' =>
      let (item, st') := filter {| m_start := b; m_end := e |} st in
      let (items, st'') := replacements filter ms' st' in
      (item :: items, st'')
  end.

(** Two matchers that agree whenever their continuations agree. *)
Definition body_eq (b1 b2 : nat -> (nat -> option nat) -> option nat) : Prop :=
  forall p k1 k2, (forall q, k1 q = k2 q) -> b1 p k1 = b2 p k2.

(** A computation that returns or raises an exception below [Exception]:
    no [SystemExit], and fuel never runs out. *)
Definition plain {A} (m : M A) : Prop :=
  forall s, match (m s).1 with
            | Ok _ => True
            | Raise (Exn _ _) => True
            | _ => False
            end.

(** A computation that leaves the file system as it is. *)
Definition readonly {A} (m : M A) : Prop :=
  forall s, w (m s).2 = w s.

End Spec.

(** ** Further notions for the properties of whole runs *)

Module RunSpec.
Import Py Re Codecs Host Main.

(** The number of ERROR lines among some events. *)
Fixpoint count_errors (evs : list event) : nat :=
  match evs with
  | [] => 0
  | Log ERROR _ :: evs' => S (count_errors evs')
  | _ :: evs' => count_errors evs'
  end.

(** A computation that only adds to the log, and no ERROR line. *)
Definition quiet {A} (m : M A) : Prop :=
  forall s, exists evs, trace (m s).2 = trace s ++ evs /\ count_errors evs = 0.


(** Whether [path] can be opened for writing, and if so whether the file
    is readable afterwards (a new file is). *)
Definition write_target (wd : world) (path : str) : option bool :=
  match files wd !! path with
  | None =>
      match uncreatable wd !! path with
      | None => Some true
      | Some _ => None
      end
  | Some (File _ readable writable) => if writable then Some readable else None
  | Some Directory => None
  end.

(** The state with the file at [path] replaced. *)
Definition set_file (s : state) (path : str) (n : node) : state :=
  {| w := {| files := <[path := n]> (files (w s)); uncreatable := uncreatable (w s) |};
     trace := trace s |}.

Definition hyphen_free (argv : list str) : bool :=
  forallb (fun a => negb (starts_with_hyphen a)) argv.

(** A file system in which the output file exists already. *)
Definition state1 : state := {|
  w := {| files := {[ py "in.sql" := File (py "CREATE TABLE t (user_id INT);") true true;
                      py "out.sql" := File (py "old contents") true true ]};
          uncreatable := ∅ |};
  trace := []
|}.

End RunSpec.

(** ** Properties of the engine *)

Module ReFacts.
Import Py Re Spec.

Section Facts.
Context (ucd : unicode_data).

Lemma step_char_reaches test t : reaches t (step_char test t).
Proof.
  intros p k e H. unfold step_char in H.
  destruct (char_at t p) as [ch|] eqn:E; [|done].
  destruct (test ch); [|done].
  exists (S p). apply lookup_lt_Some in E. repeat split; [lia|lia|done].
Qed.

Lemma rep_min_reaches t body lo : reaches t body -> reaches t (rep_min body lo).
Proof.
  intros Hb. induction lo as [|lo IH]; intros p k e H; simpl in H.
  - exists p. auto.
  - apply Hb in H as (p1 & Hp1 & Hl1 & H1).
    apply IH in H1 as (p2 & Hp2 & Hl2 & H2).
    exists p2. repeat split; [lia|auto|done].
Qed.

Lemma rep_opt_reaches t body g n : reaches t body -> reaches t (rep_opt body g n).
Proof.
  intros Hb. induction n as [|n IH]; intros p k e H; simpl in H.
  - exists p. auto.
  - assert (Hmore : forall e',
               body p (fun p' => if p' =? p then k p' else rep_opt body g n p' k) = Some e' ->
               exists p', p <= p' /\ (p <= length t -> p' <= length t) /\ k p' = Some e').
    { intros e' H'. apply Hb in H' as (p1 & Hp1 & Hl1 & H1).
      destruct (p1 =? p) eqn:E.
      - exists p1. auto.
      - apply IH in H1 as (p2 & Hp2 & Hl2 & H2).
        exists p2. repeat split; [lia|auto|done]. }
    destruct g.
    + destruct (body p _) as [e'|] eqn:E.
      * inversion H; subst. by apply Hmore.
      * exists p. auto.
    + destruct (k p) as [e'|] eqn:E.
      * inversion H; subst. exists p. auto.
      * by apply Hmore.
Qed.

Lemma sre_m_reaches r : forall fl t, reaches t (sre_m ucd r fl t).
Proof.
  induction r as [| c | | neg c | neg items | a | r1 IH1 r2 IH2 | r1 IH1 r2 IH2
                 | lo hi g r IH | r IH | on off r IH];
    intros fl t p k e H; simpl in H;
    try (by eapply step_char_reaches).
  - exists p. auto.
  - destruct (at_test _ _ _ _ _); [|done]. exists p. auto.
  - apply IH1 in H as (p1 & Hp1 & Hl1 & H1).
    apply IH2 in H1 as (p2 & Hp2 & Hl2 & H2).
    exists p2. repeat split; [lia|auto|done].
  - destruct (sre_m ucd r1 fl t p k) as [e'|] eqn:E.
    + inversion H; subst. by eapply IH1.
    + by eapply IH2.
  - apply (rep_min_reaches t _ lo (IH fl t)) in H as (p1 & Hp1 & Hl1 & H1).
    apply (rep_opt_reaches t _ g _ (IH fl t)) in H1 as (p2 & Hp2 & Hl2 & H2).
    exists p2. repeat split; [lia|auto|done].
  - by eapply IH.
  - by eapply IH.
Qed.

Lemma step_char_local test t : local t (step_char test t).
Proof.
  intros p k1 k2 Hp Hk. unfold step_char.
  destruct (char_at t p) as [ch|] eqn:E; [|done].
  destruct (test ch); [|done].
  apply lookup_lt_Some in E. apply Hk. lia.
Qed.

Lemma rep_min_local t body lo : reaches t body -> local t body -> local t (rep_min body lo).
Proof.
  intros Hr Hb. induction lo as [|lo IH]; intros p k1 k2 Hp Hk; simpl.
  - apply Hk. lia.
  - apply Hb; [done|]. intros q Hq. apply IH; [lia|].
    intros q' Hq'. apply Hk. lia.
Qed.

Lemma rep_opt_local t body g n : local t body -> local t (rep_opt body g n).
Proof.
  intros Hb. induction n as [|n IH]; intros p k1 k2 Hp Hk; simpl.
  - apply Hk. lia.
  - rewrite (Hb p (fun p' => if p' =? p then k1 p' else rep_opt body g n p' k1)
                  (fun p' => if p' =? p then k2 p' else rep_opt body g n p' k2)); [|done|].
    + rewrite (Hk p) by lia. done.
    + intros q Hq. destruct (q =? p); [by apply Hk|].
      apply IH; [lia|]. intros q' Hq'. apply Hk. lia.
Qed.

Lemma sre_m_local r : forall fl t, local t (sre_m ucd r fl t).
Proof.
  induction r as [| c | | neg c | neg items | a | r1 IH1 r2 IH2 | r1 IH1 r2 IH2
                 | lo hi g r IH | r IH | on off r IH];
    intros fl t p k1 k2 Hp Hk; simpl;
    try (by apply step_char_local).
  - apply Hk. lia.
  - destruct (at_test _ _ _ _ _); [|done]. apply Hk. lia.
  - apply IH1; [done|]. intros q Hq. apply IH2; [lia|].
    intros q' Hq'. apply Hk. lia.
  - rewrite (IH1 fl t p k1 k2 Hp Hk), (IH2 fl t p k1 k2 Hp Hk). done.
  - apply (rep_min_local t _ lo (sre_m_reaches r fl t) (IH fl t)); [done|].
    intros q Hq. apply (rep_opt_local t _ g _ (IH fl t)); [lia|].
    intros q' Hq'. apply Hk. lia.
  - by apply IH.
  - by apply IH.
Qed.

(** The bound on the optional iterations of an open repeat does not cut
    the repeat short: a larger bound gives the same result. *)
Lemma rep_opt_enough t body g :
  local t body ->
  forall n m p k, p <= length t -> length t - p < n -> n <= m ->
    rep_opt body g m p k = rep_opt body g n p k.
Proof.
  intros Hb. induction n as [|n IH]; intros m p k Hp Hn Hm; [lia|].
  destruct m as [|m]; [lia|]. simpl.
  rewrite (Hb p (fun p' => if p' =? p then k p' else rep_opt body g m p' k)
                (fun p' => if p' =? p then k p' else rep_opt body g n p' k)); [done|done|].
  intros q Hq. destruct (q =? p) eqn:E; [done|].
  apply Nat.eqb_neq in E. apply IH; lia.
Qed.

Lemma open_repeat_bound r fl t g lo p k extra :
  p <= length t ->
  sre_m ucd (RRepeat lo None g r) fl t p k =
    rep_min (sre_m ucd r fl t) lo p
      (fun p' => rep_opt (sre_m ucd r fl t) g (rep_bound lo None t p' + extra) p' k).
Proof.
  intros Hp. cbn [sre_m].
  apply (rep_min_local t _ lo (sre_m_reaches r fl t) (sre_m_local r fl t)); [done|].
  intros q Hq. symmetry.
  apply (rep_opt_enough t _ g (sre_m_local r fl t)); unfold rep_bound; lia.
Qed.

Lemma sre_match_bounds r fl t start adv e :
  sre_match ucd r fl t start adv = Some e ->
  start <= e /\ (start <= length t -> e <= length t) /\ (adv = true -> start < e).
Proof.
  unfold sre_match. intros H.
  apply sre_m_reaches in H as (p' & Hp' & Hl' & H).
  destruct adv; simpl in H.
  - destruct (p' =? start) eqn:E; [done|]. inversion H; subst.
    apply Nat.eqb_neq in E. repeat split; auto; lia.
  - inversion H; subst. repeat split; auto; done.
Qed.

Lemma scan_bounds r fl t n : forall ptr b e,
  scan ucd r fl t n ptr = Some (b, e) -> ptr + n <= length t ->
  ptr < b /\ b <= e /\ e <= length t.
Proof.
  induction n as [|n IH]; intros ptr b e H Hn; simpl in H; [done|].
  destruct (sre_match ucd r fl t (S ptr) false) as [e'|] eqn:E.
  - inversion H; subst. apply sre_match_bounds in E as (? & ? & _). lia.
  - apply IH in H; lia.
Qed.

Lemma sre_search_bounds r fl t start adv b e :
  sre_search ucd r fl t start adv = Some (b, e) -> start <= length t ->
  start <= b /\ b <= e /\ e <= length t /\ (adv = true -> start < e).
Proof.
  unfold sre_search. intros H Hs.
  destruct (sre_match ucd r fl t start adv) as [e'|] eqn:E.
  - inversion H; subst. apply sre_match_bounds in E as (? & ? & ?).
    repeat split; auto; lia.
  - apply scan_bounds in H; [|lia]. repeat split; try lia.
Qed.

Lemma scanner_total r fl t fuel : forall start adv,
  start <= length t -> turns_left t start adv < fuel ->
  exists ms, scanner ucd fuel r fl t start adv = Some ms /\ spans_ok t start ms.
Proof.
  induction fuel as [|fuel IH]; intros start adv Hs Hf; [lia|]. simpl.
  destruct (sre_search ucd r fl t start adv) as [[b e]|] eqn:E.
  - apply sre_search_bounds in E as (? & ? & ? & Hadv); [|done].
    destruct (IH e (e =? b)) as (ms & -> & Hok); [done| |].
    + unfold turns_left in *. destruct (e =? b) eqn:Eb.
      * apply Nat.eqb_eq in Eb. subst.
        destruct adv; [specialize (Hadv eq_refl)|]; lia.
      * apply Nat.eqb_neq in Eb. destruct adv; lia.
    + exists ((b, e) :: ms). split; [done|]. simpl. auto.
  - exists []. done.
Qed.

Lemma finditer_total r fl t :
  exists ms, finditer ucd r fl t = Some ms /\ spans_ok t 0 ms.
Proof.
  apply scanner_total; [lia|]. unfold turns_left, sub_fuel. lia.
Qed.

(** The substitution loop splices what the callback returns into the
    spans that the scanner finds. *)
Lemma subx_splice {S : Type} (filter : Match -> S -> str * S) r fl t fuel :
  forall i start adv st pieces ms,
    scanner ucd fuel r fl t start adv = Some ms ->
    subx ucd fuel filter r fl t i start adv st pieces =
      Some (concat pieces ++ splice t i ms (replacements filter ms st).1,
            (replacements filter ms st).2).
Proof.
  induction fuel as [|fuel IH]; intros i start adv st pieces ms H; [done|].
  simpl in *.
  destruct (sre_search ucd r fl t start adv) as [[b e]|] eqn:E.
  - destruct (scanner ucd fuel r fl t e (e =? b)) as [ms'|] eqn:E'; [|done].
    inversion H; subst. simpl.
    destruct (filter _ st) as [item st'] eqn:Ef.
    rewrite (IH _ _ _ _ _ ms' E').
    destruct (replacements filter ms' st') as [items st''] eqn:Er. simpl.
    f_equal. f_equal.
    rewrite concat_app. simpl. rewrite app_nil_r, <- !app_assoc. done.
  - inversion H; subst. simpl. rewrite concat_app. simpl.
    by rewrite app_nil_r.
Qed.

Lemma pattern_sub_splice {S : Type} (filter : Match -> S -> str * S) r fl t st :
  exists ms, finditer ucd r fl t = Some ms /\ spans_ok t 0 ms /\
    pattern_sub ucd filter r fl t st =
      Some (splice t 0 ms (replacements filter ms st).1,
            (replacements filter ms st).2).
Proof.
  destruct (finditer_total r fl t) as (ms & Hms & Hok).
  exists ms. repeat split; [done..|].
  unfold pattern_sub. by rewrite (subx_splice _ _ _ _ _ _ _ _ _ _ ms Hms).
Qed.

(** Putting the matched substrings back gives the text again: [splice]
    touches the spans only. *)
Lemma slice_drop t i b : i <= b -> slice t i b ++ drop b t = drop i t.
Proof.
  intros Hib. unfold slice.
  replace (drop b t) with (drop (b - i) (drop i t)).
  - apply take_drop.
  - rewrite drop_drop. f_equal. lia.
Qed.

Lemma splice_matched t ms : forall i,
  spans_ok t i ms -> splice t i ms (matched t ms) = drop i t.
Proof.
  induction ms as [|[b e] ms IH]; intros i Hok; simpl; [done|].
  destruct Hok as (? & ? & ? & Hok).
  rewrite (IH e Hok). simpl. rewrite slice_drop by done. by apply slice_drop.
Qed.
End Facts.

End ReFacts.

(** ** Matching modulo the case of ASCII letters *)

Module CaseFacts.
Import Py Re Spec.

(** Decide the comparisons on code points that occur in a goal, by
    arithmetic where the context settles them and by cases elsewhere. *)
Ltac cmp_N :=
  repeat match goal with
         | |- context [(?a <? ?b)%N] =>
             first [ replace (a <? b)%N with true by (symmetry; apply N.ltb_lt; lia)
                   | replace (a <? b)%N with false by (symmetry; apply N.ltb_ge; lia)
                   | destruct (N.ltb_spec a b) ]
         | |- context [(?a <=? ?b)%N] =>
             first [ replace (a <=? b)%N with true by (symmetry; apply N.leb_le; lia)
                   | replace (a <=? b)%N with false by (symmetry; apply N.leb_gt; lia)
                   | destruct (N.leb_spec a b) ]
         | |- context [(?a =? ?b)%N] =>
             first [ replace (a =? b)%N with true by (symmetry; apply N.eqb_eq; lia)
                   | replace (a =? b)%N with false by (symmetry; apply N.eqb_neq; lia)
                   | destruct (N.eqb_spec a b) ]
         end;
  simpl; try reflexivity; try lia.

Lemma lower_ascii_eq a b :
  lower_ascii a = lower_ascii b ->
  a = b \/ ((65 <= a <= 90)%N /\ b = (a + 32)%N) \/ ((65 <= b <= 90)%N /\ a = (b + 32)%N).
Proof.
  unfold lower_ascii, is_upper_ascii.
  destruct (N.leb_spec 65 a), (N.leb_spec a 90), (N.leb_spec 65 b), (N.leb_spec b 90);
    simpl; intros Heq; lia.
Qed.

Section Case.
Context (ucd : unicode_data).

Lemma tolower_case a b : lower_ascii a = lower_ascii b -> tolower ucd a = tolower ucd b.
Proof.
  intros H. destruct (lower_ascii_eq a b H) as [->|[[Ha ->]|[Hb ->]]]; [done| |];
    unfold tolower, is_ascii, lower_ascii, is_upper_ascii; cmp_N.
Qed.

Lemma is_linebreak_case a b : lower_ascii a = lower_ascii b -> is_linebreak a = is_linebreak b.
Proof.
  intros H. destruct (lower_ascii_eq a b H) as [->|[[Ha ->]|[Hb ->]]]; [done| |];
    unfold is_linebreak; cmp_N.
Qed.

Lemma cat_test_case k a b :
  lower_ascii a = lower_ascii b -> cat_test ucd k a = cat_test ucd k b.
Proof.
  intros H. destruct (lower_ascii_eq a b H) as [->|[[Ha ->]|[Hb ->]]]; [done| |];
    destruct k;
    unfold cat_test, isdecimal, isspace, isalnum, is_ascii, is_digit_ascii,
      is_upper_ascii, is_lower_ascii; cmp_N.
Qed.

Lemma lit_test_case c a b :
  lower_ascii a = lower_ascii b -> lit_test ucd true c a = lit_test ucd true c b.
Proof. intros H. unfold lit_test. by rewrite (tolower_case a b H). Qed.

Lemma set_test_case neg items a b :
  lower_ascii a = lower_ascii b ->
  set_test ucd true neg items a = set_test ucd true neg items b.
Proof. intros H. unfold set_test. by rewrite (tolower_case a b H). Qed.

(** Texts equal modulo case have the same length and agree, modulo case,
    at every position. *)
Lemma same_length t1 t2 : same_modulo_case t1 t2 -> length t1 = length t2.
Proof.
  unfold same_modulo_case. intros H.
  rewrite <- (length_map lower_ascii t1), H. apply length_map.
Qed.

Lemma char_at_case t1 : forall t2 p,
  same_modulo_case t1 t2 ->
  match char_at t1 p, char_at t2 p with
  | Some a, Some b => lower_ascii a = lower_ascii b
  | None, None => True
  | _, _ => False
  end.
Proof.
  unfold same_modulo_case.
  induction t1 as [|a t1 IH]; intros [|b t2] p H; simpl in H; try done.
  inversion H. destruct p; simpl; [done|]. by apply IH.
Qed.

Lemma step_char_case test1 test2 t1 t2 p k1 k2 :
  same_modulo_case t1 t2 ->
  (forall a b, lower_ascii a = lower_ascii b -> test1 a = test2 b) ->
  (forall q, k1 q = k2 q) ->
  step_char test1 t1 p k1 = step_char test2 t2 p k2.
Proof.
  intros Ht Htest Hk. unfold step_char.
  pose proof (char_at_case t1 t2 p Ht) as Hp.
  destruct (char_at t1 p) as [a|], (char_at t2 p) as [b|]; try done.
  rewrite (Htest a b Hp). destruct (test2 b); [apply Hk|done].
Qed.

Lemma word_at_case t1 t2 p : same_modulo_case t1 t2 -> word_at ucd t1 p = word_at ucd t2 p.
Proof.
  intros Ht. unfold word_at. pose proof (char_at_case t1 t2 p Ht) as Hp.
  destruct (char_at t1 p) as [a|], (char_at t2 p) as [b|]; try done.
  by apply cat_test_case.
Qed.

Lemma linebreak_at_case t1 t2 p :
  same_modulo_case t1 t2 -> linebreak_at t1 p = linebreak_at t2 p.
Proof.
  intros Ht. unfold linebreak_at. pose proof (char_at_case t1 t2 p Ht) as Hp.
  destruct (char_at t1 p) as [a|], (char_at t2 p) as [b|]; try done.
  by apply is_linebreak_case.
Qed.

Lemma at_test_case fl a t1 t2 p :
  same_modulo_case t1 t2 -> at_test ucd fl a t1 p = at_test ucd fl a t2 p.
Proof.
  intros Ht. unfold at_test.
  rewrite (same_length t1 t2 Ht), !(word_at_case t1 t2 _ Ht),
    !(linebreak_at_case t1 t2 _ Ht). done.
Qed.

Lemma rep_min_case b1 b2 lo : body_eq b1 b2 -> body_eq (rep_min b1 lo) (rep_min b2 lo).
Proof.
  intros Hb. induction lo as [|lo IH]; intros p k1 k2 Hk; simpl; [apply Hk|].
  apply Hb. intros q. by apply IH.
Qed.

Lemma rep_opt_case b1 b2 g n : body_eq b1 b2 -> body_eq (rep_opt b1 g n) (rep_opt b2 g n).
Proof.
  intros Hb. induction n as [|n IH]; intros p k1 k2 Hk; simpl; [apply Hk|].
  rewrite (Hb p (fun p' => if p' =? p then k1 p' else rep_opt b1 g n p' k1)
                (fun p' => if p' =? p then k2 p' else rep_opt b2 g n p' k2)).
  - by rewrite (Hk p).
  - intros q. destruct (q =? p); [apply Hk|by apply IH].
Qed.

Lemma sre_m_case r t1 t2 :
  same_modulo_case t1 t2 -> keeps_ignorecase r = true ->
  forall fl, ignorecase fl = true -> body_eq (sre_m ucd r fl t1) (sre_m ucd r fl t2).
Proof.
  intros Ht.
  induction r as [| c | | neg c | neg items | a | r1 IH1 r2 IH2 | r1 IH1 r2 IH2
                 | lo hi g r IH | r IH | on off r IH];
    intros Hr fl Hfl p k1 k2 Hk; simpl in *.
  - apply Hk.
  - rewrite Hfl. apply step_char_case; [done| |done]. apply lit_test_case.
  - apply step_char_case; [done| |done].
    intros a b Hab. by rewrite (is_linebreak_case a b Hab).
  - apply step_char_case; [done| |done].
    intros a b Hab. by rewrite (cat_test_case c a b Hab).
  - rewrite Hfl. apply step_char_case; [done| |done]. apply set_test_case.
  - rewrite (at_test_case fl a t1 t2 p Ht). destruct (at_test _ _ _ _ _); [apply Hk|done].
  - apply andb_prop in Hr as [Hr1 Hr2].
    apply IH1; [done..|]. intros q. by apply IH2.
  - apply andb_prop in Hr as [Hr1 Hr2].
    rewrite (IH1 Hr1 fl Hfl p k1 k2 Hk), (IH2 Hr2 fl Hfl p k1 k2 Hk). done.
  - apply rep_min_case; [by apply IH|].
    intros q. unfold rep_bound. rewrite (same_length t1 t2 Ht).
    apply rep_opt_case; [by apply IH|done].
  - by apply IH.
  - apply andb_prop in Hr as [Hoff Hr].
    apply IH; [done| |done].
    simpl. rewrite Hfl. simpl. by destruct (ignorecase off).
Qed.

Lemma sre_match_case r fl t1 t2 start adv :
  same_modulo_case t1 t2 -> keeps_ignorecase r = true -> ignorecase fl = true ->
  sre_match ucd r fl t1 start adv = sre_match ucd r fl t2 start adv.
Proof. intros Ht Hr Hfl. unfold sre_match. by apply sre_m_case. Qed.

Lemma sre_search_case r fl t1 t2 start adv :
  same_modulo_case t1 t2 -> keeps_ignorecase r = true -> ignorecase fl = true ->
  sre_search ucd r fl t1 start adv = sre_search ucd r fl t2 start adv.
Proof.
  intros Ht Hr Hfl. unfold sre_search.
  rewrite (sre_match_case r fl t1 t2 start adv Ht Hr Hfl), (same_length t1 t2 Ht).
  destruct (sre_match ucd r fl t2 start adv); [done|].
  generalize (length t2 - start). intros n. revert start.
  induction n as [|n IH]; intros start; simpl; [done|].
  rewrite (sre_match_case r fl t1 t2 (S start) false Ht Hr Hfl).
  destruct (sre_match ucd r fl t2 (S start) false); [done|apply IH].
Qed.

Lemma scanner_case r t1 t2 fuel :
  same_modulo_case t1 t2 -> keeps_ignorecase r = true ->
  forall start adv,
    scanner ucd fuel r IGNORECASE t1 start adv = scanner ucd fuel r IGNORECASE t2 start adv.
Proof.
  intros Ht Hr.
  induction fuel as [|fuel IH]; intros start adv; simpl; [done|].
  rewrite (sre_search_case r IGNORECASE t1 t2 start adv Ht Hr eq_refl).
  destruct (sre_search ucd r IGNORECASE t2 start adv) as [[b e]|]; [|done].
  by rewrite IH.
Qed.

Lemma finditer_case r t1 t2 :
  same_modulo_case t1 t2 -> keeps_ignorecase r = true ->
  finditer ucd r IGNORECASE t1 = finditer ucd r IGNORECASE t2.
Proof.
  intros Ht Hr. unfold finditer, sub_fuel. rewrite (same_length t1 t2 Ht).
  by apply scanner_case.
Qed.
End Case.

End CaseFacts.

(** ** The substitution pass *)

Module PassFacts.
Import Py Re ReParse Codecs Host Main Host0 Spec ReFacts CaseFacts.

(** The callback numbers the matches it is given from its counter on. *)
Lemma replacements_from prefix ms : forall n : nat,
  replacements (replace_column_name prefix) ms (Z.of_nat n) =
    (map (fun k => prefix ++ str_of_int (Z.of_nat k)) (seq n (length ms)),
     Z.of_nat (n + length ms)).
Proof.
  induction ms as [|[b e] ms IH]; intros n; simpl.
  - by rewrite Nat.add_0_r.
  - replace (Z.of_nat n + 1)%Z with (Z.of_nat (S n)) by lia.
    rewrite IH. do 2 f_equal. lia.
Qed.

Lemma replacements_numbered prefix ms :
  replacements (replace_column_name prefix) ms 1%Z =
    (numbered prefix (length ms), (1 + Z.of_nat (length ms))%Z).
Proof.
  change 1%Z with (Z.of_nat 1) at 1. rewrite replacements_from.
  unfold numbered. f_equal. lia.
Qed.

(** The pass in terms of the spans that the scan finds. *)
Lemma substitute_splice h pattern prefix text r :
  re_parse h pattern = inr r ->
  exists ms,
    finditer (ucd h) r IGNORECASE text = Some ms /\ spans_ok text 0 ms /\
    substitute h pattern prefix text =
      Ok (splice text 0 ms (numbered prefix (length ms)),
          (1 + Z.of_nat (length ms))%Z).
Proof.
  intros Hp.
  destruct (pattern_sub_splice (ucd h) (replace_column_name prefix) r IGNORECASE text 1%Z)
    as (ms & Hms & Hok & Hsub).
  exists ms. repeat split; [done..|].
  unfold substitute, re_sub. rewrite Hp, Hsub.
  by rewrite replacements_numbered.
Qed.

Lemma numbered_prepend prefix count :
  numbered prefix count = map (app prefix) (numbered [] count).
Proof. unfold numbered. rewrite map_map. done. Qed.

(** C1.  For every text, pattern and prefix: a pattern that does not
    compile makes the pass raise [re.error]; otherwise the pass returns the
    text in which the Nth span found by the left-to-right scan is replaced by
    the prefix followed by N in decimal, N = 1, 2, ..., and the counter ends
    at one more than the number of matches.  The spans are in order and do
    not overlap, and everything outside them is the text as it was (putting
    the matched substrings back gives the text again). *)
Theorem substitute_numbers_matches (h : host) (pattern prefix text : str) :
  match re_parse h pattern with
  | inl msg => substitute h pattern prefix text = Raise (Exn re_error msg)
  | inr r =>
      exists ms,
        finditer (ucd h) r IGNORECASE text = Some ms /\
        spans_ok text 0 ms /\
        substitute h pattern prefix text =
          Ok (splice text 0 ms (numbered prefix (length ms)),
              (1 + Z.of_nat (length ms))%Z) /\
        splice text 0 ms (matched text ms) = text
  end.
Proof.
  destruct (re_parse h pattern) as [msg|r] eqn:Hp.
  - unfold substitute, re_sub. by rewrite Hp.
  - destruct (substitute_splice h pattern prefix text r Hp) as (ms & Hms & Hok & Hsub).
    exists ms. repeat split; [done..|].
    by rewrite (splice_matched text ms 0 Hok).
Qed.

(** C2.  When the pattern finds no match in the text, the pass returns the
    text itself, the counter still has its initial value 1, and nothing is
    raised. *)
Theorem substitute_no_match (h : host) (pattern prefix text : str) (r : regex) :
  re_parse h pattern = inr r ->
  finditer (ucd h) r IGNORECASE text = Some [] ->
  substitute h pattern prefix text = Ok (text, 1%Z).
Proof.
  intros Hp Hnone.
  destruct (substitute_splice h pattern prefix text r Hp) as (ms & Hms & _ & Hsub).
  rewrite Hnone in Hms. inversion Hms; subst. exact Hsub.
Qed.

Lemma substitute_no_match_witness :
  substitute host0 (default_column_name_pattern) (default_column_prefix)
             (py "SELECT 1;") = Ok (py "SELECT 1;", 1%Z).
Proof.
  eapply substitute_no_match.
  - vm_compute. reflexivity.
  - vm_compute. reflexivity.
Defined.

(** C8.  The pass is not idempotent: with the pattern [[a-z_]+] and the
    prefix [column_], the text [name] becomes [column_1], and [column_1]
    becomes [column_11]. *)
Theorem substitute_not_idempotent :
  exists pattern prefix text out1 out2 n1 n2,
    substitute host0 pattern prefix text = Ok (out1, n1) /\
    substitute host0 pattern prefix out1 = Ok (out2, n2) /\
    out2 <> out1.
Proof.
  exists (py "[a-z_]+"), (py "column_"), (py "name"),
         (py "column_1"), (py "column_11"), 2%Z, 2%Z.
  repeat split; [vm_compute; reflexivity..|discriminate].
Qed.

(** C10.  The prefix goes into the output as it is, whatever characters it
    holds: each replacement is the prefix followed by the decimal number,
    at spans that do not depend on the prefix. *)
Theorem prefix_inserted_verbatim (h : host) (pattern prefix text : str) (r : regex) :
  re_parse h pattern = inr r ->
  exists ms,
    finditer (ucd h) r IGNORECASE text = Some ms /\
    substitute h pattern prefix text =
      Ok (splice text 0 ms (map (app prefix) (numbered [] (length ms))),
          (1 + Z.of_nat (length ms))%Z).
Proof.
  intros Hp.
  destruct (substitute_splice h pattern prefix text r Hp) as (ms & Hms & _ & Hsub).
  exists ms. split; [done|]. by rewrite <- numbered_prepend.
Qed.

Lemma prefix_inserted_verbatim_witness :
  exists ms,
    finditer ucd0 (regex_of (py "(id)")) IGNORECASE (py "id, ID") = Some ms /\
    substitute host0 (py "(id)") (py "\1\g<0>") (py "id, ID") =
      Ok (splice (py "id, ID") 0 ms (map (app (py "\1\g<0>")) (numbered [] (length ms))),
          (1 + Z.of_nat (length ms))%Z).
Proof.
  apply (prefix_inserted_verbatim host0 (py "(id)") (py "\1\g<0>") (py "id, ID")).
  vm_compute. reflexivity.
Defined.

(** The same run, evaluated: backslash sequences of the prefix stay. *)
Example prefix_with_backslashes :
  substitute host0 (py "(id)") (py "\1\g<0>") (py "id, ID")
  = Ok (py "\1\g<0>1, \1\g<0>2", 3%Z).
Proof. vm_compute. reflexivity. Qed.

(** The scenarios of the specification. *)
Example scenario_customers :
  substitute host0 default_column_name_pattern default_column_prefix
    (py "CREATE TABLE Customers (customer_id INT, customer_name VARCHAR(255));")
  = Ok (py "CREATE TABLE Customers (column_1 INT, column_2 VARCHAR(255));", 3%Z).
Proof. vm_compute. reflexivity. Qed.

Example scenario_field_prefix :
  substitute host0 default_column_name_pattern (py "field_") (py "user_email TEXT")
  = Ok (py "field_1 TEXT", 2%Z).
Proof. vm_compute. reflexivity. Qed.

Example scenario_empty_matches :
  substitute host0 (py "x*") (py "-") (py "abxd") = Ok (py "-1a-2b-3-4d-5", 6%Z).
Proof. vm_compute. reflexivity. Qed.

(** C6, as stated, fails: a pattern can switch IGNORECASE off for a part
    of itself.  With [(?-i:name)] the text [name] is replaced and the text
    [NAME] is not. *)
Lemma scoped_flag_is_case_sensitive :
  same_modulo_case (py "NAME") (py "name") /\
  substitute host0 (py "(?-i:name)") (py "column_") (py "name") = Ok (py "column_1", 2%Z) /\
  substitute host0 (py "(?-i:name)") (py "column_") (py "NAME") = Ok (py "NAME", 1%Z).
Proof. repeat split; vm_compute; reflexivity. Qed.

(** C6, amended.  The pass always runs with IGNORECASE, and for a pattern
    in which no scoped group switches the flag off, two texts that differ
    only in the case of ASCII letters have their matches at the same spans,
    so the pass replaces the same spans by the same names in both. *)
Theorem substitute_case_insensitive (h : host) (pattern prefix t1 t2 : str) (r : regex) :
  re_parse h pattern = inr r ->
  keeps_ignorecase r = true ->
  same_modulo_case t1 t2 ->
  exists ms,
    finditer (ucd h) r IGNORECASE t1 = Some ms /\
    finditer (ucd h) r IGNORECASE t2 = Some ms /\
    substitute h pattern prefix t1 =
      Ok (splice t1 0 ms (numbered prefix (length ms)), (1 + Z.of_nat (length ms))%Z) /\
    substitute h pattern prefix t2 =
      Ok (splice t2 0 ms (numbered prefix (length ms)), (1 + Z.of_nat (length ms))%Z).
Proof.
  intros Hp Hr Ht.
  destruct (substitute_splice h pattern prefix t1 r Hp) as (ms & Hms & _ & Hsub1).
  destruct (substitute_splice h pattern prefix t2 r Hp) as (ms' & Hms' & _ & Hsub2).
  rewrite (finditer_case (ucd h) r t1 t2 Ht Hr) in Hms.
  rewrite Hms in Hms'. inversion Hms'; subst.
  exists ms'. rewrite (finditer_case (ucd h) r t1 t2 Ht Hr). done.
Qed.

Lemma substitute_case_insensitive_witness :
  exists ms,
    finditer ucd0 (regex_of (py "name")) IGNORECASE (py "NAME, Name") = Some ms /\
    finditer ucd0 (regex_of (py "name")) IGNORECASE (py "nAmE, name") = Some ms /\
    substitute host0 (py "name") (py "column_") (py "NAME, Name") =
      Ok (splice (py "NAME, Name") 0 ms (numbered (py "column_") (length ms)),
          (1 + Z.of_nat (length ms))%Z) /\
    substitute host0 (py "name") (py "column_") (py "nAmE, name") =
      Ok (splice (py "nAmE, name") 0 ms (numbered (py "column_") (length ms)),
          (1 + Z.of_nat (length ms))%Z).
Proof.
  apply (substitute_case_insensitive host0 (py "name") (py "column_")
           (py "NAME, Name") (py "nAmE, name")).
  - vm_compute. reflexivity.
  - vm_compute. reflexivity.
  - vm_compute. reflexivity.
Defined.

Example scenario_case :
  substitute host0 (py "name") (py "column_") (py "NAME Name nAmE")
  = Ok (py "column_1 column_2 column_3", 4%Z).
Proof. vm_compute. reflexivity. Qed.

End PassFacts.

(** ** Decoding with [errors='replace'] *)

Module CodecFacts.
Import Py Re Codecs Host Main Host0.




(** The outcome of reading a text file with [errors='replace']. *)
Lemma read_text_replace h path encoding s :
  read_text h path encoding Replace s =
    match files (w s) !! path with
    | None => (Raise (os_error h ENOENT path), s)
    | Some Directory => (Raise (os_error h EISDIR path), s)
    | Some (File data readable _) =>
        if readable then
          match codecs_lookup h encoding with
          | None => (Raise (Exn LookupError (py "unknown encoding: " ++ encoding)), s)
          | Some c =>
              match decode c Replace data with
              | inr text => (Ok (translate_newlines text), s)
              | inl (k, msg) => (Raise (Exn k msg), s)
              end
          end
        else (Raise (os_error h EACCES path), s)
    end.
Proof.
  unfold read_text, open_raw_read, lookup_codec, bind, get_world, raise, ret.
  destruct (files (w s) !! path) as [[data [] wr|]|]; try done.
  destruct (codecs_lookup h encoding) as [c|]; [|done].
  by destruct (decode c Replace data) as [[k msg]|text].
Qed.


(** The codecs for ASCII, Latin-1 and UTF-8 are of that kind. *)
Lemma utf_8_reports_to_handler : reports_to_handler utf_8_codec utf8_decode_one.
Proof. by intros h bs. Qed.

Lemma ascii_reports_to_handler : reports_to_handler ascii_codec ascii_decode_one.
Proof. by intros h bs. Qed.

Lemma latin_1_reports_to_handler : reports_to_handler latin_1_codec latin_1_decode_one.
Proof. by intros h bs. Qed.


(** Bytes that are not UTF-8: an invalid start byte, a euro sign, a
    truncated sequence before a letter, and a truncated sequence at the end. *)
Example utf8_replace :
  decode utf_8_codec Replace [97; 255; 226; 130; 172; 226; 130; 65; 240; 159]%N
  = inr [97; 65533; 8364; 65533; 65; 65533]%N.
Proof. reflexivity. Qed.

Example utf8_strict :
  decode utf_8_codec Strict [97; 255; 226; 130; 172]%N
  = inl (UnicodeDecodeError, utf8_invalid_start).
Proof. reflexivity. Qed.

End CodecFacts.

(** ** The run as a whole *)

Module MainFacts.
Import Py Re ReParse Codecs Host Main Host0 Spec ReFacts PassFacts CodecFacts.

Lemma bind_Ok {A B} (m : M A) (f : A -> M B) s a s' :
  m s = (Ok a, s') -> bind m f s = f a s'.
Proof. unfold bind. by intros ->. Qed.

Lemma bind_Raise {A B} (m : M A) (f : A -> M B) s e s' :
  m s = (Raise e, s') -> bind m f s = (Raise e, s').
Proof. unfold bind. by intros ->. Qed.

Lemma plain_bind {A B} (m : M A) (f : A -> M B) :
  plain m -> (forall a, plain (f a)) -> plain (bind m f).
Proof.
  intros Hm Hf s. specialize (Hm s). unfold bind.
  destruct (m s) as [[a|[c msg|code]|] s']; simpl in *; try done.
  apply Hf.
Qed.

Lemma readonly_bind {A B} (m : M A) (f : A -> M B) :
  readonly m -> (forall a, readonly (f a)) -> readonly (bind m f).
Proof.
  intros Hm Hf s. specialize (Hm s). unfold bind.
  destruct (m s) as [[a|e|] s']; simpl in *; try done.
  by rewrite Hf.
Qed.

Lemma plain_ret {A} (a : A) : plain (ret a).
Proof. by intros s. Qed.

Lemma readonly_ret {A} (a : A) : readonly (ret a).
Proof. by intros s. Qed.

Lemma plain_raise {A} c msg : plain (@raise A (Exn c msg)).
Proof. by intros s. Qed.

Lemma readonly_raise {A} e : readonly (@raise A e).
Proof. by intros s. Qed.

Lemma plain_logging_info msg : plain (logging_info msg).
Proof. by intros s. Qed.

Lemma readonly_logging_info msg : readonly (logging_info msg).
Proof. by intros s. Qed.

Lemma plain_open_raw_read h path : plain (open_raw_read h path).
Proof.
  intros s. unfold open_raw_read, bind, get_world, raise, ret.
  destruct (files (w s) !! path) as [[data [] wr|]|]; simpl; done.
Qed.

Lemma readonly_open_raw_read h path : readonly (open_raw_read h path).
Proof.
  intros s. unfold open_raw_read, bind, get_world, raise, ret.
  destruct (files (w s) !! path) as [[data [] wr|]|]; simpl; done.
Qed.

Lemma plain_lookup_codec h encoding : plain (lookup_codec h encoding).
Proof. intros s. unfold lookup_codec. by destruct (codecs_lookup h encoding). Qed.

Lemma plain_read_text h path encoding : plain (read_text h path encoding Replace).
Proof.
  intros s. rewrite read_text_replace.
  destruct (files (w s) !! path) as [[data [] wr|]|]; simpl; try done.
  destruct (codecs_lookup h encoding) as [c|]; [|done].
  by destruct (decode c Replace data) as [[k msg]|text].
Qed.

Lemma readonly_read_text h path encoding : readonly (read_text h path encoding Replace).
Proof.
  intros s. rewrite read_text_replace.
  destruct (files (w s) !! path) as [[data [] wr|]|]; simpl; try done.
  destruct (codecs_lookup h encoding) as [c|]; [|done].
  by destruct (decode c Replace data) as [[k msg]|text].
Qed.

(** The pass returns or raises [re.error]. *)
Lemma substitute_cases h pattern prefix text :
  (exists msg, re_parse h pattern = inl msg /\
     substitute h pattern prefix text = Raise (Exn re_error msg)) \/
  (exists out n, substitute h pattern prefix text = Ok (out, n)).
Proof.
  destruct (re_parse h pattern) as [msg|r] eqn:Hp.
  - left. exists msg. split; [done|]. unfold substitute, re_sub. by rewrite Hp.
  - right. destruct (substitute_splice h pattern prefix text r Hp) as (ms & _ & _ & ->).
    by eexists _, _.
Qed.

Lemma plain_substitute h pattern prefix text :
  plain (lift (substitute h pattern prefix text)).
Proof.
  intros s. unfold lift. simpl.
  destruct (substitute_cases h pattern prefix text) as [(msg & _ & ->)|(out & n & ->)]; done.
Qed.

Lemma readonly_lift {A} (r : result A) : readonly (lift r).
Proof. by intros s. Qed.

Lemma plain_read_and_substitute h input pattern prefix encoding :
  plain (read_and_substitute h input pattern prefix encoding).
Proof.
  apply plain_bind; [apply plain_read_text|]. intros text.
  apply plain_bind; [apply plain_substitute|]. intros out. apply plain_ret.
Qed.

Lemma readonly_read_and_substitute h input pattern prefix encoding :
  readonly (read_and_substitute h input pattern prefix encoding).
Proof.
  apply readonly_bind; [apply readonly_read_text|]. intros text.
  apply readonly_bind; [apply readonly_lift|]. intros out. apply readonly_ret.
Qed.

Lemma plain_resolve_encoding h input encoding : plain (resolve_encoding h input encoding).
Proof.
  unfold resolve_encoding. destruct (is_auto h encoding); [|apply plain_ret].
  apply plain_bind; [apply plain_open_raw_read|]. intros raw.
  apply plain_bind; [apply plain_logging_info|]. intros _.
  destruct (chardet_detect h raw); [apply plain_ret|apply plain_raise].
Qed.

Lemma readonly_resolve_encoding h input encoding :
  readonly (resolve_encoding h input encoding).
Proof.
  unfold resolve_encoding. destruct (is_auto h encoding); [|apply readonly_ret].
  apply readonly_bind; [apply readonly_open_raw_read|]. intros raw.
  apply readonly_bind; [apply readonly_logging_info|]. intros _.
  destruct (chardet_detect h raw); [apply readonly_ret|apply readonly_raise].
Qed.

Lemma plain_write_text h path encoding text : plain (write_text h path encoding text).
Proof.
  unfold write_text.
  apply plain_bind.
  - intros s. unfold open_raw_write, bind, get_world, raise, put_files.
    destruct (files (w s) !! path) as [[data rd []|]|]; simpl; try done.
    destruct (uncreatable (w s) !! path) as [e|]; simpl; [by destruct e|done].
  - intros _. apply plain_bind; [apply plain_lookup_codec|]. intros c.
    destruct (encode c (write_newlines h text)) as [msg|data]; [apply plain_raise|].
    intros s. unfold raw_write, bind, get_world, put_files, ret.
    destruct (files (w s) !! path) as [[d rd wr|]|]; done.
Qed.

Lemma plain_with_encoding h input output pattern prefix encoding :
  plain (with_encoding h input output pattern prefix encoding).
Proof.
  apply plain_bind; [apply plain_read_and_substitute|]. intros text.
  apply plain_bind; [apply plain_write_text|]. intros _. apply plain_logging_info.
Qed.

Lemma plain_try_body h input output pattern prefix encoding :
  plain (try_body h input output pattern prefix encoding).
Proof.
  apply plain_bind; [apply plain_resolve_encoding|]. intros e.
  apply plain_with_encoding.
Qed.

Lemma readonly_before_output h input pattern prefix encoding :
  readonly (before_output h input pattern prefix encoding).
Proof.
  apply readonly_bind; [apply readonly_resolve_encoding|]. intros e.
  apply readonly_read_and_substitute.
Qed.

(** A failure before the output is opened is the failure of the body. *)
Lemma try_body_early h input output pattern prefix encoding s e s1 :
  before_output h input pattern prefix encoding s = (Raise e, s1) ->
  try_body h input output pattern prefix encoding s = (Raise e, s1).
Proof.
  unfold before_output, try_body, with_encoding, bind.
  destruct (resolve_encoding h input encoding s) as [[enc|e0|] s0];
    [|by intros [= -> ->]|intros H; discriminate H].
  destruct (read_and_substitute h input pattern prefix enc s0) as [[text|e1|] s2];
    intros H; first [discriminate H | by injection H as -> ->].
Qed.

(** The [except] clauses report by category and exit with status 1. *)
Lemma dispatch_handlers input c msg s :
  dispatch (handlers input) (Exn c msg) s =
    (Raise (SystemExit 1), add_event s (Log ERROR (report input (failure_of c) msg))).
Proof. by destruct c. Qed.

Lemma anonymize_cases h input output pattern prefix encoding s :
  match try_body h input output pattern prefix encoding s with
  | (Ok _, s') =>
      anonymize_table_definition h input output pattern prefix encoding s = (Ok tt, s')
  | (Raise (Exn c msg), s') =>
      anonymize_table_definition h input output pattern prefix encoding s =
        (Raise (SystemExit 1), add_event s' (Log ERROR (report input (failure_of c) msg)))
  | _ => False
  end.
Proof.
  pose proof (plain_try_body h input output pattern prefix encoding s) as Hp.
  unfold anonymize_table_definition, try_except.
  destruct (try_body h input output pattern prefix encoding s) as [[[]|[c msg|code]|] s'];
    simpl in *; try done.
  apply dispatch_handlers.
Qed.

(** [main] once the command line is parsed. *)
Lemma main_parsed h argv args s :
  argparse h argv = Parsed_args args ->
  main h argv s =
    (let* _ :=
       (if falsy (input_file args) || falsy (output_file args) then
          let* _ := logging_error (py "Error: Input and output file paths must be specified.") in
          let* _ := print_help in
          sys_exit 1
        else ret tt) in
     try_except
       (anonymize_table_definition h (input_file args) (output_file args)
          (column_name_pattern args) (column_prefix args) (encoding args))
       [ (Exception, fun e =>
            let* _ := logging_error (py "An error occurred: " ++ str_of_exn e) in
            sys_exit 1) ]) s.
Proof. intros Hargs. unfold main, parse_args. by rewrite Hargs. Qed.

(** The exit status of a run, by what the body of the [try] does. *)
Lemma run_cases h argv args s :
  argparse h argv = Parsed_args args ->
  if falsy (input_file args) || falsy (output_file args) then
    run h argv s =
      (Some 1%Z,
       add_event
         (add_event s (Log ERROR (py "Error: Input and output file paths must be specified.")))
         PrintHelp)
  else
    match try_body h (input_file args) (output_file args) (column_name_pattern args)
                   (column_prefix args) (encoding args) s with
    | (Ok _, s1) => run h argv s = (Some 0%Z, s1)
    | (Raise (Exn c msg), s1) =>
        run h argv s =
          (Some 1%Z, add_event s1 (Log ERROR (report (input_file args) (failure_of c) msg)))
    | _ => False
    end.
Proof.
  intros Hargs. unfold run. rewrite (main_parsed h argv args s Hargs).
  destruct (falsy (input_file args) || falsy (output_file args)); [done|].
  pose proof (anonymize_cases h (input_file args) (output_file args)
                (column_name_pattern args) (column_prefix args) (encoding args) s) as Ha.
  unfold bind, ret, try_except.
  destruct (try_body h (input_file args) (output_file args) (column_name_pattern args)
              (column_prefix args) (encoding args) s) as [[[]|[c msg|code]|] s1];
    try done; by rewrite Ha.
Qed.

(** A command line that the parser does not accept. *)
Lemma run_unparsed h argv s :
  match argparse h argv with
  | Parsed_args _ => True
  | Usage_error msg => run h argv s = (Some 2%Z, add_event s (Usage msg))
  | Help_requested => run h argv s = (Some 0%Z, add_event s PrintHelp)
  end.
Proof.
  unfold run, main, parse_args. by destruct (argparse h argv).
Qed.

(** A body that returns has logged the success line last. *)
Lemma try_body_Ok h input output pattern prefix enc s s1 :
  try_body h input output pattern prefix enc s = (Ok tt, s1) ->
  exists s0, s1 = add_event s0
                    (Log INFO (py "Anonymized table definition written to " ++ output)).
Proof.
  unfold try_body, with_encoding, bind, logging_info.
  destruct (resolve_encoding h input enc s) as [[enc'|e0|] s0]; try done.
  destruct (read_and_substitute h input pattern prefix enc' s0) as [[text|e1|] s2]; try done.
  destruct (write_text h output enc' text s2) as [[[]|e2|] s3]; try done.
  intros [= <-]. by eexists.
Qed.

(** C3, amended.  A run whose command line the argument parser accepts
    ends with exit status 0 or 1.  Empty paths give status 1.  Otherwise,
    when the body of the [try] returns, the status is 0 and the last line
    logged is the success line; when it raises, in whatever class, the
    exception is caught, one ERROR line is logged, the line for the category
    of the class (not found, I/O error, pattern error, ValueError - which
    covers the failed detection -, unexpected error), and the status is 1;
    the body never ends in another way.  The other exits are the argument
    parser's, before any of this: status 2 for a command line it rejects,
    status 0 after the help. *)
Theorem every_failure_exits_1 (h : host) (argv : list str) (s : state) :
  match argparse h argv with
  | Parsed_args args =>
      let '(code, s') := run h argv s in
      (code = Some 0%Z \/ code = Some 1%Z) /\
      (if falsy (input_file args) || falsy (output_file args) then
         code = Some 1%Z /\
         s' = add_event
                (add_event s
                   (Log ERROR (py "Error: Input and output file paths must be specified.")))
                PrintHelp
       else
         match try_body h (input_file args) (output_file args) (column_name_pattern args)
                        (column_prefix args) (encoding args) s with
         | (Ok _, s1) =>
             code = Some 0%Z /\ s' = s1 /\
             exists s0, s1 = add_event s0
                               (Log INFO (py "Anonymized table definition written to "
                                          ++ output_file args))
         | (Raise (Exn c msg), s1) =>
             code = Some 1%Z /\
             s' = add_event s1 (Log ERROR (report (input_file args) (failure_of c) msg))
         | _ => False
         end)
  | Usage_error msg => run h argv s = (Some 2%Z, add_event s (Usage msg))
  | Help_requested => run h argv s = (Some 0%Z, add_event s PrintHelp)
  end.
Proof.
  pose proof (run_unparsed h argv s) as Hu.
  destruct (argparse h argv) as [args|msg|] eqn:Hargs; [|done..].
  pose proof (run_cases h argv args s Hargs) as Hr.
  destruct (falsy (input_file args) || falsy (output_file args)).
  - rewrite Hr. auto.
  - pose proof (try_body_Ok h (input_file args) (output_file args) (column_name_pattern args)
                  (column_prefix args) (encoding args) s) as Hok.
    destruct (try_body h (input_file args) (output_file args) (column_name_pattern args)
                (column_prefix args) (encoding args) s) as [[[]|[c msg|code]|] s1];
      try done; rewrite Hr; auto.
Qed.

(** C4.  A run whose body fails before the output file is opened - while
    the encoding is settled, the input read or the text substituted - ends
    with status 1 and leaves the file system as it was; in particular the
    output path is as before. *)
Theorem early_failure_leaves_output
        (h : host) (argv : list str) (args : Namespace) (s : state) (e : exn) (s1 : state) :
  argparse h argv = Parsed_args args ->
  before_output h (input_file args) (column_name_pattern args) (column_prefix args)
                (encoding args) s = (Raise e, s1) ->
  exists s', run h argv s = (Some 1%Z, s') /\ w s' = w s /\
             files (w s') !! output_file args = files (w s) !! output_file args.
Proof.
  intros Hargs Hb.
  pose proof (readonly_before_output h (input_file args) (column_name_pattern args)
                (column_prefix args) (encoding args) s) as Hro.
  rewrite Hb in Hro. simpl in Hro.
  pose proof (run_cases h argv args s Hargs) as Hr.
  destruct (falsy (input_file args) || falsy (output_file args)).
  - eexists. split; [exact Hr|]. done.
  - rewrite (try_body_early _ _ _ _ _ _ _ _ _ Hb) in Hr.
    destruct e as [c msg|code]; [|done].
    eexists. split; [exact Hr|]. simpl. by rewrite Hro.
Qed.

(** The four ways to fail early that the specification lists. *)
Lemma early_failures h input pattern prefix enc s :
  (files (w s) !! input = None ->
   exists s1, before_output h input pattern prefix enc s
              = (Raise (os_error h ENOENT input), s1)) /\
  (forall data wr, files (w s) !! input = Some (File data false wr) ->
   exists s1, before_output h input pattern prefix enc s
              = (Raise (os_error h EACCES input), s1)) /\
  (forall raw wr, is_auto h enc = true ->
   files (w s) !! input = Some (File raw true wr) -> chardet_detect h raw = None ->
   exists s1, before_output h input pattern prefix enc s
              = (Raise (Exn ValueError (py "Unable to automatically detect file encoding.")), s1)) /\
  (forall msg, re_parse h pattern = inl msg ->
   exists e s1, before_output h input pattern prefix enc s = (Raise e, s1)).
Proof.
  repeat split.
  - intros Hf. unfold before_output, resolve_encoding, read_binary, open_raw_read,
      read_and_substitute, bind, get_world.
    destruct (is_auto h enc); simpl; rewrite ?read_text_replace; simpl; rewrite Hf;
      by eexists.
  - intros data wr Hf. unfold before_output, resolve_encoding, read_binary, open_raw_read,
      read_and_substitute, bind, get_world.
    destruct (is_auto h enc); simpl; rewrite ?read_text_replace; simpl; rewrite Hf;
      by eexists.
  - intros raw wr Ha Hf Hd. unfold before_output, resolve_encoding, read_binary,
      open_raw_read, bind, get_world. rewrite Ha. simpl. rewrite Hf. simpl.
    rewrite Hd. by eexists.
  - intros msg Hp.
    pose proof (plain_resolve_encoding h input enc s) as Hpl.
    unfold before_output, bind.
    destruct (resolve_encoding h input enc s) as [[enc'|[c m|code]|] s0]; simpl in Hpl;
      try done; [|by eexists _, _].
    pose proof (plain_read_text h input enc' s0) as Hpr.
    unfold read_and_substitute, bind.
    destruct (read_text h input enc' Replace s0) as [[text|[c m|code]|] s2]; simpl in Hpr;
      try done; [|by eexists _, _].
    destruct (substitute_cases h pattern prefix text) as [(m & Hm & Hs)|(out & n & Hs)].
    + unfold lift. rewrite Hs. by eexists _, _.
    + unfold substitute, re_sub in Hs. by rewrite Hp in Hs.
Qed.

(** *** The encoding *)

Lemma resolve_encoding_auto h input enc s raw wr :
  is_auto h enc = true ->
  files (w s) !! input = Some (File raw true wr) ->
  resolve_encoding h input enc s =
    match chardet_detect h raw with
    | None =>
        (Raise (Exn ValueError (py "Unable to automatically detect file encoding.")),
         add_event s (Log INFO (py "Detected encoding: None")))
    | Some detected =>
        (Ok detected, add_event s (Log INFO (py "Detected encoding: " ++ detected)))
    end.
Proof.
  intros Ha Hf. unfold resolve_encoding, read_binary, open_raw_read, bind, get_world.
  rewrite Ha. simpl. rewrite Hf. simpl. by destruct (chardet_detect h raw).
Qed.

(** What the body does with a settled encoding when nothing fails: the
    output file holds the substituted text, encoded by the codec that
    decoded the input. *)
Lemma with_encoding_writes h input output pattern prefix enc s raw wr c text out n data :
  files (w s) !! input = Some (File raw true wr) ->
  codecs_lookup h enc = Some c ->
  decode c Replace raw = inr text ->
  substitute h pattern prefix (translate_newlines text) = Ok (out, n) ->
  encode c (write_newlines h out) = inr data ->
  files (w s) !! output = None -> uncreatable (w s) !! output = None ->
  with_encoding h input output pattern prefix enc s =
    (Ok tt,
     {| w := {| files := <[output := File data true true]> (files (w s));
                uncreatable := uncreatable (w s) |};
        trace := trace s
                 ++ [Log INFO (py "Anonymized table definition written to " ++ output)] |}).
Proof.
  intros Hf Hc Hd Hs He Ho Hu.
  unfold with_encoding, read_and_substitute.
  rewrite (bind_Ok _ _ s (fst (out, n)) s).
  2:{ unfold bind. rewrite read_text_replace, Hf, Hc, Hd. unfold lift. by rewrite Hs. }
  unfold write_text, open_raw_write, lookup_codec, raw_write, bind, get_world, put_files,
    logging_info, add_event, ret.
  simpl. rewrite Ho, Hu. simpl. rewrite Hc. simpl. rewrite He. simpl.
  rewrite lookup_insert_eq. simpl. by rewrite insert_insert_eq.
Qed.

(** C5.  With the auto-detect sentinel and a readable input, the detector
    runs on the bytes of the input file.  When it names no encoding, the
    run logs the detection result and the ValueError line and exits with
    status 1.  When it names one, that name is logged and the rest of the
    body is the body for that encoding; so when nothing fails, the output
    file holds the substituted text encoded by the codec of that name, the
    codec that decoded the input. *)
Theorem auto_detection (h : host) (input output pattern prefix enc : str)
        (s : state) (raw : bytes) (wr : bool) :
  is_auto h enc = true ->
  files (w s) !! input = Some (File raw true wr) ->
  match chardet_detect h raw with
  | None =>
      anonymize_table_definition h input output pattern prefix enc s =
        (Raise (SystemExit 1),
         add_event
           (add_event s (Log INFO (py "Detected encoding: None")))
           (Log ERROR (py "ValueError: Unable to automatically detect file encoding.")))
  | Some detected =>
      try_body h input output pattern prefix enc s =
        with_encoding h input output pattern prefix detected
          (add_event s (Log INFO (py "Detected encoding: " ++ detected))) /\
      forall c text out n data,
        codecs_lookup h detected = Some c ->
        decode c Replace raw = inr text ->
        substitute h pattern prefix (translate_newlines text) = Ok (out, n) ->
        encode c (write_newlines h out) = inr data ->
        files (w s) !! output = None -> uncreatable (w s) !! output = None ->
        try_body h input output pattern prefix enc s =
          (Ok tt,
           {| w := {| files := <[output := File data true true]> (files (w s));
                      uncreatable := uncreatable (w s) |};
              trace := trace s
                       ++ [Log INFO (py "Detected encoding: " ++ detected);
                           Log INFO (py "Anonymized table definition written to "
                                     ++ output)] |})
  end.
Proof.
  intros Ha Hf.
  pose proof (resolve_encoding_auto h input enc s raw wr Ha Hf) as Hr.
  destruct (chardet_detect h raw) as [detected|].
  - assert (try_body h input output pattern prefix enc s =
            with_encoding h input output pattern prefix detected
              (add_event s (Log INFO (py "Detected encoding: " ++ detected)))) as Ht.
    { unfold try_body. by rewrite (bind_Ok _ _ _ _ _ Hr). }
    split; [done|].
    intros c text out n data Hc Hd Hs He Ho Hu. rewrite Ht.
    rewrite (with_encoding_writes h input output pattern prefix detected _ raw wr
               c text out n data); try done.
    simpl. by rewrite <- app_assoc.
  - pose proof (anonymize_cases h input output pattern prefix enc s) as Hc.
    unfold try_body in Hc. rewrite (bind_Raise _ _ _ _ _ Hr) in Hc. exact Hc.
Qed.

Lemma lower_ascii_letter c x :
  lower_ascii c = x -> (97 <= x <= 122)%N -> c = x \/ c = (x - 32)%N.
Proof.
  unfold lower_ascii, is_upper_ascii.
  destruct (N.leb_spec 65 c), (N.leb_spec c 90); simpl; lia.
Qed.

Lemma lower_cons_inv u enc x xs :
  lower_keeps_off_auto u ->
  lower u enc = x :: xs ->
  (x = 97 \/ x = 117 \/ x = 116 \/ x = 111)%N ->
  exists c rest, enc = c :: rest /\ lower_ascii c = x /\ lower u rest = xs.
Proof.
  intros Hu Hl Hx. destruct enc as [|c rest]; [done|].
  unfold lower in Hl. simpl in Hl. fold (lower u rest) in Hl.
  destruct (is_ascii c) eqn:Ec.
  - simpl in Hl. inversion Hl. by eexists _, _.
  - specialize (Hu c Ec). destruct (u_lower u c) as [|d ds]; [done|].
    simpl in Hl. inversion Hl; subst. lia.
Qed.

Lemma lower_nil_inv u enc : lower_keeps_off_auto u -> lower u enc = [] -> enc = [].
Proof.
  intros Hu Hl. destruct enc as [|c rest]; [done|].
  unfold lower in Hl. simpl in Hl.
  destruct (is_ascii c) eqn:Ec; [done|].
  specialize (Hu c Ec). by destruct (u_lower u c).
Qed.

Lemma spells_auto_is_auto h enc : spells_auto enc -> is_auto h enc = true.
Proof.
  destruct enc as [|a [|u [|t [|o [|]]]]]; try done.
  intros ([-> | ->] & [-> | ->] & [-> | ->] & [-> | ->]);
    unfold is_auto, str_eqb; apply bool_decide_eq_true_2; reflexivity.
Qed.

Lemma is_auto_spells_auto h enc :
  lower_keeps_off_auto (ucd h) -> is_auto h enc = true -> spells_auto enc.
Proof.
  intros Hu Ha. unfold is_auto, str_eqb in Ha. apply bool_decide_eq_true_1 in Ha.
  change (py "auto") with [97; 117; 116; 111]%N in Ha.
  apply lower_cons_inv in Ha as (a & r1 & -> & Hla & Ha); [|done|lia].
  apply lower_cons_inv in Ha as (u & r2 & -> & Hlu & Ha); [|done|lia].
  apply lower_cons_inv in Ha as (t & r3 & -> & Hlt & Ha); [|done|lia].
  apply lower_cons_inv in Ha as (o & r4 & -> & Hlo & Ha); [|done|lia].
  apply lower_nil_inv in Ha as ->; [|done].
  apply lower_ascii_letter in Hla, Hlu, Hlt, Hlo; try lia.
  simpl. repeat split; lia.
Qed.

Lemma resolve_encoding_sentinel h input e1 e2 :
  is_auto h e1 = true -> is_auto h e2 = true ->
  resolve_encoding h input e1 = resolve_encoding h input e2.
Proof. unfold resolve_encoding. by intros -> ->. Qed.

(** C9.  Given that lower-casing a code point above ASCII yields none of
    the letters of [auto] at its head, the encoding argument triggers
    detection exactly when it spells [auto] in some mix of upper and lower
    case.  For such an argument the bytes of a readable input are handed to
    the detector, its answer is logged, and that answer - not the argument -
    is the encoding of the rest of the run (or the run fails when there is
    none); the run is the same as for [auto].  Any other argument reaches
    the codec registry as it is: nothing is read or logged to settle the
    encoding, and the input is decoded by the codec of that name. *)
Theorem auto_sentinel_ignores_case
        (h : host) (input output pattern prefix enc : str) (s : state) :
  lower_keeps_off_auto (ucd h) ->
  (spells_auto enc ->
     is_auto h enc = true /\
     (forall raw wr, files (w s) !! input = Some (File raw true wr) ->
        resolve_encoding h input enc s =
          match chardet_detect h raw with
          | None =>
              (Raise (Exn ValueError (py "Unable to automatically detect file encoding.")),
               add_event s (Log INFO (py "Detected encoding: None")))
          | Some detected =>
              (Ok detected, add_event s (Log INFO (py "Detected encoding: " ++ detected)))
          end) /\
     (forall raw wr detected, files (w s) !! input = Some (File raw true wr) ->
        chardet_detect h raw = Some detected ->
        try_body h input output pattern prefix enc s =
          with_encoding h input output pattern prefix detected
            (add_event s (Log INFO (py "Detected encoding: " ++ detected)))) /\
     anonymize_table_definition h input output pattern prefix enc s =
       anonymize_table_definition h input output pattern prefix (py "auto") s) /\
  (~ spells_auto enc ->
     is_auto h enc = false /\
     resolve_encoding h input enc s = (Ok enc, s) /\
     try_body h input output pattern prefix enc s =
       with_encoding h input output pattern prefix enc s /\
     (forall raw wr, files (w s) !! input = Some (File raw true wr) ->
        before_output h input pattern prefix enc s =
          match codecs_lookup h enc with
          | None => (Raise (Exn LookupError (py "unknown encoding: " ++ enc)), s)
          | Some c =>
              match decode c Replace raw with
              | inl (k, msg) => (Raise (Exn k msg), s)
              | inr text =>
                  (match substitute h pattern prefix (translate_newlines text) with
                   | Ok (out, _) => Ok out
                   | Raise e => Raise e
                   | OutOfFuel => OutOfFuel
                   end, s)
              end
          end)).
Proof.
  intros Hu. split.
  - intros Hs. pose proof (spells_auto_is_auto h enc Hs) as Ha. split; [done|].
    split; [|split].
    + intros raw wr Hf. by apply (resolve_encoding_auto h input enc s raw wr).
    + intros raw wr detected Hf Hd.
      pose proof (resolve_encoding_auto h input enc s raw wr Ha Hf) as Hr.
      rewrite Hd in Hr. unfold try_body. by rewrite (bind_Ok _ _ _ _ _ Hr).
    + unfold anonymize_table_definition, try_body.
      by rewrite (resolve_encoding_sentinel h input enc (py "auto") Ha eq_refl).
  - intros Hs. assert (is_auto h enc = false) as Ha.
    { destruct (is_auto h enc) eqn:E; [|done].
      destruct Hs. by apply (is_auto_spells_auto h). }
    assert (resolve_encoding h input enc s = (Ok enc, s)) as Hr.
    { unfold resolve_encoding. by rewrite Ha. }
    split; [done|]. split; [done|]. split.
    + unfold try_body. by rewrite (bind_Ok _ _ _ _ _ Hr).
    + intros raw wr Hf. unfold before_output. rewrite (bind_Ok _ _ _ _ _ Hr).
      unfold read_and_substitute, bind. rewrite read_text_replace, Hf.
      destruct (codecs_lookup h enc) as [c|]; [|done].
      destruct (decode c Replace raw) as [[k msg]|text]; [done|].
      unfold lift.
      by destruct (substitute h pattern prefix (translate_newlines text)) as [[out n]|e|].
Qed.

End MainFacts.

(** ** Runs of the program on the example host *)

Module Runs.
Import Py Re ReParse Codecs Host Main Host0 Spec MainFacts.

Example run_default :
  observe argv0 (py "out.sql") state0 =
    (Some 0%Z,
     Some (File (py "CREATE TABLE t (column_1 INT, column_2 TEXT);") true true),
     [Log INFO (py "Anonymized table definition written to out.sql")]).
Proof. vm_compute. reflexivity. Qed.

Example run_auto :
  observe (argv0 ++ [py "--encoding"; py "Auto"]) (py "out.sql") state0 =
    (Some 0%Z,
     Some (File (py "CREATE TABLE t (column_1 INT, column_2 TEXT);") true true),
     [Log INFO (py "Detected encoding: ascii");
      Log INFO (py "Anonymized table definition written to out.sql")]).
Proof. vm_compute. reflexivity. Qed.

Example run_custom_prefix :
  observe (argv0 ++ [py "--column_prefix"; py "field_"]) (py "out.sql") state0 =
    (Some 0%Z,
     Some (File (py "CREATE TABLE t (field_1 INT, field_2 TEXT);") true true),
     [Log INFO (py "Anonymized table definition written to out.sql")]).
Proof. vm_compute. reflexivity. Qed.

Example run_missing_input :
  observe [py "nope.sql"; py "out.sql"] (py "out.sql") state0 =
    (Some 1%Z, None, [Log ERROR (py "Error: Input file 'nope.sql' not found.")]).
Proof. vm_compute. reflexivity. Qed.

Example run_invalid_pattern :
  observe (argv0 ++ [py "--column_name_pattern"; py "(\w+_id"]) (py "out.sql") state0 =
    (Some 1%Z, None,
     [Log ERROR (py "Regex Error: Invalid regular expression: missing ), unterminated subpattern at position 0")]).
Proof. vm_compute. reflexivity. Qed.

Example run_unknown_encoding :
  observe (argv0 ++ [py "--encoding"; py "bogus"]) (py "out.sql") state0 =
    (Some 1%Z, None,
     [Log ERROR (py "An unexpected error occurred: unknown encoding: bogus")]).
Proof. vm_compute. reflexivity. Qed.

Example run_detection_fails :
  observe (argv0 ++ [py "--encoding"; py "auto"]) (py "out.sql")
          {| w := {| files := {[ py "in.sql" := File [255; 254]%N true true ]};
                     uncreatable := ∅ |};
             trace := [] |} =
    (Some 1%Z, None,
     [Log INFO (py "Detected encoding: None");
      Log ERROR (py "ValueError: Unable to automatically detect file encoding.")]).
Proof. vm_compute. reflexivity. Qed.

Example run_unreadable_input :
  observe argv0 (py "out.sql")
          {| w := {| files := {[ py "in.sql" := File table false true ]};
                     uncreatable := ∅ |};
             trace := [] |} =
    (Some 1%Z, None,
     [Log ERROR (py "IOError: [Errno 13] Permission denied: 'in.sql'")]).
Proof. vm_compute. reflexivity. Qed.

Example run_empty_path :
  observe [py "in.sql"; []] (py "out.sql") state0 =
    (Some 1%Z, None,
     [Log ERROR (py "Error: Input and output file paths must be specified.");
      PrintHelp]).
Proof. vm_compute. reflexivity. Qed.

(** A failure after the output is opened: the prefix cannot be encoded,
    and the output file is left empty. *)
Example run_unencodable_prefix :
  observe (argv0 ++ [py "--encoding"; py "ascii"; py "--column_prefix"; [233%N]])
          (py "out.sql") state0 =
    (Some 1%Z, Some (File [] true true),
     [Log ERROR (py "ValueError: 'ascii' codec can't encode character: ordinal not in range(128)")]).
Proof. vm_compute. reflexivity. Qed.

(** The output cannot be created because its directory is missing: the
    [FileNotFoundError] falls to the first [except] clause, which names the
    input file. *)
Example run_output_directory_missing :
  observe [py "in.sql"; py "nodir/out.sql"] (py "nodir/out.sql") state0 =
    (Some 1%Z, None, [Log ERROR (py "Error: Input file 'in.sql' not found.")]).
Proof. vm_compute. reflexivity. Qed.

(** C3, as stated, fails on its last clause: a command line without the
    output path is refused by the argument parser, and the process ends
    with status 2. *)
Lemma usage_error_exits_2 :
  run host0 [py "in.sql"] state0 =
    (Some 2%Z,
     add_event state0 (Usage (py "the following arguments are required: output_file"))).
Proof. vm_compute. reflexivity. Qed.

Lemma ucd0_keeps_off_auto : lower_keeps_off_auto ucd0.
Proof.
  intros c Hc. simpl. unfold is_ascii in Hc. apply N.ltb_ge in Hc. lia.
Qed.

Lemma early_failure_leaves_output_witness :
  exists s', run host0 (argv0 ++ [py "--column_name_pattern"; py "(\w+_id"]) state0
             = (Some 1%Z, s') /\
             w s' = w state0 /\
             files (w s') !! py "out.sql" = files (w state0) !! py "out.sql".
Proof.
  apply (early_failure_leaves_output host0
           (argv0 ++ [py "--column_name_pattern"; py "(\w+_id"])
           {| input_file := py "in.sql"; output_file := py "out.sql";
              column_name_pattern := py "(\w+_id";
              column_prefix := default_column_prefix;
              encoding := default_encoding |}
           state0
           (Exn re_error (py "missing ), unterminated subpattern at position 0")) state0).
  - vm_compute. reflexivity.
  - vm_compute. reflexivity.
Defined.

Lemma auto_detection_witness :
  try_body host0 (py "in.sql") (py "out.sql") default_column_name_pattern
           default_column_prefix (py "AUTO") state0 =
    with_encoding host0 (py "in.sql") (py "out.sql") default_column_name_pattern
                  default_column_prefix (py "ascii")
                  (add_event state0 (Log INFO (py "Detected encoding: ascii"))).
Proof.
  apply (auto_detection host0 (py "in.sql") (py "out.sql") default_column_name_pattern
           default_column_prefix (py "AUTO") state0 table true).
  - vm_compute. reflexivity.
  - vm_compute. reflexivity.
Defined.

Lemma auto_sentinel_ignores_case_witness :
  (is_auto host0 (py "AuTo") = true /\
   resolve_encoding host0 (py "in.sql") (py "AuTo") state0 =
     (Ok (py "ascii"), add_event state0 (Log INFO (py "Detected encoding: ascii")))) /\
  (is_auto host0 (py "latin-1") = false /\
   resolve_encoding host0 (py "in.sql") (py "latin-1") state0 = (Ok (py "latin-1"), state0)).
Proof.
  split.
  - destruct (proj1 (auto_sentinel_ignores_case host0 (py "in.sql") (py "out.sql")
                       default_column_name_pattern default_column_prefix (py "AuTo") state0
                       ucd0_keeps_off_auto)) as (Ha & Hd & _).
    { vm_compute. repeat split; auto. }
    split; [exact Ha|]. apply (Hd table true). reflexivity.
  - destruct (proj2 (auto_sentinel_ignores_case host0 (py "in.sql") (py "out.sql")
                       default_column_name_pattern default_column_prefix (py "latin-1") state0
                       ucd0_keeps_off_auto)) as (Ha & Hr & _).
    { vm_compute. intros H. exact H. }
    split; [exact Ha|exact Hr].
Defined.


(** With a byte order mark the same codec reads and writes: the text goes
    through in the byte order of the mark and comes out in that of the
    machine. *)
Example run_utf_16_with_bom :
  observe (argv0 ++ [py "--encoding"; py "utf-16"]) (py "out.sql")
          {| w := {| files := {[ py "in.sql" :=
                                   File [254; 255; 0; 97; 0; 95; 0; 105; 0; 100]%N true true ]};
                     uncreatable := ∅ |};
             trace := [] |} =
    (Some 0%Z,
     Some (File [255; 254; 99; 0; 111; 0; 108; 0; 117; 0; 109; 0; 110; 0; 95; 0; 49; 0]%N
             true true),
     [Log INFO (py "Anonymized table definition written to out.sql")]).
Proof. vm_compute. reflexivity. Qed.

End Runs.

(** ** Further properties of the program *)

Module Extras.
Import Py Re ReParse Codecs Host Main Host0 Spec RunSpec ReFacts PassFacts CodecFacts MainFacts.

(** *** What gets out of [anonymize_table_definition] *)

Lemma dispatch_SystemExit {A} (hs : list (cls * (exn -> M A))) code s :
  dispatch hs (SystemExit code) s = (Raise (SystemExit code), s).
Proof. induction hs as [|[c hd] hs IH]; simpl; [done|apply IH]. Qed.

(** X1.  [anonymize_table_definition] lets no exception out: it returns or
    it raises [SystemExit(1)].  So no [except] clause around a call of it
    is ever taken; the one in [main] is dead. *)
Theorem anonymize_returns_or_exits
        (h : host) (input output pattern prefix enc : str) (s : state) :
  let '(r, s') := anonymize_table_definition h input output pattern prefix enc s in
  (r = Ok tt \/ r = Raise (SystemExit 1)) /\
  forall hs : list (cls * (exn -> M unit)),
    try_except (anonymize_table_definition h input output pattern prefix enc) hs s = (r, s').
Proof.
  pose proof (anonymize_cases h input output pattern prefix enc s) as Hc.
  destruct (try_body h input output pattern prefix enc s) as [[[]|[c msg|code]|] s1];
    try done; rewrite Hc.
  - split; [by left|]. intros hs. unfold try_except. by rewrite Hc.
  - split; [by right|]. intros hs. unfold try_except. rewrite Hc.
    apply dispatch_SystemExit.
Qed.

(** *** The log *)

Lemma count_errors_app evs1 evs2 :
  count_errors (evs1 ++ evs2) = count_errors evs1 + count_errors evs2.
Proof.
  induction evs1 as [|[[] msg| |msg] evs1 IH]; simpl; by rewrite ?IH.
Qed.

Lemma quiet_still {A} (m : M A) : (forall s, trace (m s).2 = trace s) -> quiet m.
Proof. intros Hm s. exists []. by rewrite app_nil_r. Qed.

Lemma quiet_bind {A B} (m : M A) (f : A -> M B) :
  quiet m -> (forall a, quiet (f a)) -> quiet (bind m f).
Proof.
  intros Hm Hf s. destruct (Hm s) as (evs1 & Ht1 & Hc1). unfold bind.
  destruct (m s) as [[a|e|] s1]; simpl in *; try by exists evs1.
  destruct (Hf a s1) as (evs2 & Ht2 & Hc2).
  exists (evs1 ++ evs2). rewrite Ht2, Ht1, app_assoc, count_errors_app. split; [done|lia].
Qed.

Lemma quiet_logging_info msg : quiet (logging_info msg).
Proof. intros s. by exists [Log INFO msg]. Qed.

Lemma quiet_open_raw_read h path : quiet (open_raw_read h path).
Proof.
  apply quiet_still. intros s. unfold open_raw_read, bind, get_world, raise, ret.
  by destruct (files (w s) !! path) as [[data [] wr|]|].
Qed.

Lemma quiet_lookup_codec h enc : quiet (lookup_codec h enc).
Proof.
  apply quiet_still. intros s. unfold lookup_codec. by destruct (codecs_lookup h enc).
Qed.

Lemma quiet_read_text h path enc : quiet (read_text h path enc Replace).
Proof.
  apply quiet_still. intros s. rewrite read_text_replace.
  destruct (files (w s) !! path) as [[data [] wr|]|]; try done.
  destruct (codecs_lookup h enc) as [c|]; [|done].
  by destruct (decode c Replace data) as [[k msg]|text].
Qed.

Lemma quiet_write_text h path enc text : quiet (write_text h path enc text).
Proof.
  apply quiet_bind.
  - apply quiet_still. intros s. unfold open_raw_write, bind, get_world, raise, put_files.
    destruct (files (w s) !! path) as [[data rd []|]|]; try done.
    by destruct (uncreatable (w s) !! path).
  - intros _. apply quiet_bind; [apply quiet_lookup_codec|]. intros c.
    apply quiet_still. intros s.
    destruct (encode c (write_newlines h text)) as [msg|data]; [done|].
    unfold raw_write, bind, get_world, put_files, ret.
    by destruct (files (w s) !! path) as [[d rd wr|]|].
Qed.

Lemma quiet_try_body h input output pattern prefix enc :
  quiet (try_body h input output pattern prefix enc).
Proof.
  apply quiet_bind.
  - unfold resolve_encoding. destruct (is_auto h enc); [|by apply quiet_still].
    apply quiet_bind; [apply quiet_open_raw_read|]. intros raw.
    apply quiet_bind; [apply quiet_logging_info|]. intros _.
    apply quiet_still. intros s. by destruct (chardet_detect h raw).
  - intros e. apply quiet_bind.
    + apply quiet_bind; [apply quiet_read_text|]. intros text.
      apply quiet_bind; [by apply quiet_still|]. intros out. by apply quiet_still.
    + intros text. apply quiet_bind; [apply quiet_write_text|]. intros _.
      apply quiet_logging_info.
Qed.

(** X2.  A run only adds to the log, and among the lines it adds there is
    exactly one ERROR line when the exit status is 1 and none otherwise. *)
Theorem one_error_line_per_failure (h : host) (argv : list str) (s : state) :
  let '(code, s') := run h argv s in
  exists evs, trace s' = trace s ++ evs /\
              count_errors evs = if bool_decide (code = Some 1%Z) then 1 else 0.
Proof.
  pose proof (run_unparsed h argv s) as Hu.
  destruct (argparse h argv) as [args|msg|] eqn:Hargs.
  - pose proof (run_cases h argv args s Hargs) as Hr.
    destruct (falsy (input_file args) || falsy (output_file args)).
    + rewrite Hr. simpl. eexists. split; [by rewrite <- app_assoc|]. done.
    + destruct (quiet_try_body h (input_file args) (output_file args)
                  (column_name_pattern args) (column_prefix args) (encoding args) s)
        as (evs & Ht & Hc).
      destruct (try_body h (input_file args) (output_file args) (column_name_pattern args)
                  (column_prefix args) (encoding args) s) as [[[]|[c msg|code]|] s1];
        try done; rewrite Hr; simpl in *.
      * by exists evs.
      * exists (evs ++ [Log ERROR (report (input_file args) (failure_of c) msg)]).
        rewrite Ht, app_assoc, count_errors_app, Hc. done.
  - rewrite Hu. by exists [Usage msg].
  - rewrite Hu. by exists [PrintHelp].
Qed.

(** *** The files *)






(** Writing to a path that can be opened for writing. *)
Lemma write_text_target h path enc text s rd c :
  write_target (w s) path = Some rd ->
  codecs_lookup h enc = Some c ->
  write_text h path enc text s =
    match encode c (write_newlines h text) with
    | inr data => (Ok tt, set_file s path (File data rd true))
    | inl msg => (Raise (Exn UnicodeEncodeError msg), set_file s path (File [] rd true))
    end.
Proof.
  intros Ht Hc.
  unfold write_target in Ht.
  unfold write_text, open_raw_write, lookup_codec, raw_write, bind, get_world, put_files,
    raise, ret, set_file.
  destruct (files (w s) !! path) as [[d rd' []|]|] eqn:Hf; simpl in *; try done.
  - injection Ht as ->. rewrite Hc. simpl.
    destruct (encode c (write_newlines h text)) as [msg|data]; [done|].
    simpl. rewrite lookup_insert_eq. simpl. by rewrite insert_insert_eq.
  - destruct (uncreatable (w s) !! path); [done|]. injection Ht as <-. simpl.
    rewrite Hc. simpl.
    destruct (encode c (write_newlines h text)) as [msg|data]; [done|].
    simpl. rewrite lookup_insert_eq. simpl. by rewrite insert_insert_eq.
Qed.

(** Reading and substituting with a settled encoding. *)
Lemma read_and_substitute_Ok h input pattern prefix enc s raw wr c text out n :
  files (w s) !! input = Some (File raw true wr) ->
  codecs_lookup h enc = Some c ->
  decode c Replace raw = inr text ->
  substitute h pattern prefix (translate_newlines text) = Ok (out, n) ->
  read_and_substitute h input pattern prefix enc s = (Ok out, s).
Proof.
  intros Hf Hc Hd Hs. unfold read_and_substitute, bind.
  rewrite read_text_replace, Hf, Hc, Hd. unfold lift. by rewrite Hs.
Qed.

(** X4.  A run in which nothing fails: with a named encoding, a readable
    input and an output path that can be opened for writing - a new file, an
    existing writable one, or the input file itself - the run exits with
    status 0, the output path holds the substituted text of the input,
    encoded by the codec that decoded it, and the success line is logged. *)
Theorem successful_run
        (h : host) (argv : list str) (args : Namespace) (s : state)
        (raw : bytes) (wr rd : bool) (c : codec) (text out : str) (n : Z) (data : bytes) :
  argparse h argv = Parsed_args args ->
  falsy (input_file args) || falsy (output_file args) = false ->
  is_auto h (encoding args) = false ->
  files (w s) !! input_file args = Some (File raw true wr) ->
  codecs_lookup h (encoding args) = Some c ->
  decode c Replace raw = inr text ->
  substitute h (column_name_pattern args) (column_prefix args) (translate_newlines text)
    = Ok (out, n) ->
  encode c (write_newlines h out) = inr data ->
  write_target (w s) (output_file args) = Some rd ->
  run h argv s =
    (Some 0%Z,
     add_event (set_file s (output_file args) (File data rd true))
       (Log INFO (py "Anonymized table definition written to " ++ output_file args))).
Proof.
  intros Hargs Hfalsy Hauto Hf Hc Hd Hs He Ht.
  pose proof (run_cases h argv args s Hargs) as Hr. rewrite Hfalsy in Hr.
  assert (try_body h (input_file args) (output_file args) (column_name_pattern args)
            (column_prefix args) (encoding args) s =
          (Ok tt, add_event (set_file s (output_file args) (File data rd true))
                    (Log INFO (py "Anonymized table definition written to "
                               ++ output_file args)))) as Hb.
  { unfold try_body, resolve_encoding. rewrite Hauto.
    unfold with_encoding.
    rewrite (bind_Ok _ _ s (encoding args) s eq_refl).
    rewrite (bind_Ok _ _ s out s
               (read_and_substitute_Ok h _ _ _ _ s raw wr c text out n Hf Hc Hd Hs)).
    unfold bind. rewrite (write_text_target h _ _ _ s rd c Ht Hc), He. done. }
  by rewrite Hb in Hr.
Qed.

Lemma successful_run_witness :
  run host0 [py "in.sql"; py "in.sql"] state0 =
    (Some 0%Z,
     add_event
       (set_file state0 (py "in.sql")
          (File (py "CREATE TABLE t (column_1 INT, column_2 TEXT);") true true))
       (Log INFO (py "Anonymized table definition written to in.sql"))).
Proof.
  apply (successful_run host0 [py "in.sql"; py "in.sql"]
           {| input_file := py "in.sql"; output_file := py "in.sql";
              column_name_pattern := default_column_name_pattern;
              column_prefix := default_column_prefix;
              encoding := default_encoding |}
           state0 table true true utf_8_codec table
           (py "CREATE TABLE t (column_1 INT, column_2 TEXT);") 3%Z
           (py "CREATE TABLE t (column_1 INT, column_2 TEXT);"));
    first [ reflexivity | vm_compute; reflexivity ].
Defined.

(** X5.  When the substituted text cannot be encoded, the output file has
    been opened already: the run exits with status 1, reports the failure
    on the ValueError line, and leaves the output file empty, whatever it
    held before. *)
Theorem unencodable_text_empties_output
        (h : host) (argv : list str) (args : Namespace) (s : state)
        (raw : bytes) (wr rd : bool) (c : codec) (text out : str) (n : Z) (msg : str) :
  argparse h argv = Parsed_args args ->
  falsy (input_file args) || falsy (output_file args) = false ->
  is_auto h (encoding args) = false ->
  files (w s) !! input_file args = Some (File raw true wr) ->
  codecs_lookup h (encoding args) = Some c ->
  decode c Replace raw = inr text ->
  substitute h (column_name_pattern args) (column_prefix args) (translate_newlines text)
    = Ok (out, n) ->
  encode c (write_newlines h out) = inl msg ->
  write_target (w s) (output_file args) = Some rd ->
  run h argv s =
    (Some 1%Z,
     add_event (set_file s (output_file args) (File [] rd true))
       (Log ERROR (py "ValueError: " ++ msg))).
Proof.
  intros Hargs Hfalsy Hauto Hf Hc Hd Hs He Ht.
  pose proof (run_cases h argv args s Hargs) as Hr. rewrite Hfalsy in Hr.
  assert (try_body h (input_file args) (output_file args) (column_name_pattern args)
            (column_prefix args) (encoding args) s =
          (Raise (Exn UnicodeEncodeError msg),
           set_file s (output_file args) (File [] rd true))) as Hb.
  { unfold try_body, resolve_encoding. rewrite Hauto.
    unfold with_encoding.
    rewrite (bind_Ok _ _ s (encoding args) s eq_refl).
    rewrite (bind_Ok _ _ s out s
               (read_and_substitute_Ok h _ _ _ _ s raw wr c text out n Hf Hc Hd Hs)).
    unfold bind. rewrite (write_text_target h _ _ _ s rd c Ht Hc), He. done. }
  by rewrite Hb in Hr.
Qed.

Lemma unencodable_text_empties_output_witness :
  run host0 [py "in.sql"; py "out.sql"; py "--encoding"; py "ascii";
             py "--column_prefix"; [233%N]] state1 =
    (Some 1%Z,
     add_event (set_file state1 (py "out.sql") (File [] true true))
       (Log ERROR (py "ValueError: 'ascii' codec can't encode character: ordinal not in range(128)"))).
Proof.
  apply (unencodable_text_empties_output host0
           [py "in.sql"; py "out.sql"; py "--encoding"; py "ascii";
            py "--column_prefix"; [233%N]]
           {| input_file := py "in.sql"; output_file := py "out.sql";
              column_name_pattern := default_column_name_pattern;
              column_prefix := [233%N];
              encoding := py "ascii" |}
           state1 (py "CREATE TABLE t (user_id INT);") true true ascii_codec
           (py "CREATE TABLE t (user_id INT);")
           (py "CREATE TABLE t (" ++ [233%N] ++ py "1 INT);") 2%Z);
    first [ reflexivity | vm_compute; reflexivity ].
Defined.

(** X6.  When the input has been read and substituted but the output
    cannot be created because its directory does not exist, the
    [FileNotFoundError] of the second [open] is caught by the first [except]
    clause: the run exits with status 1 and the line logged says that the
    input file was not found; no file is changed. *)
Theorem missing_output_directory_blames_input
        (h : host) (argv : list str) (args : Namespace) (s : state)
        (text : str) (s1 : state) :
  argparse h argv = Parsed_args args ->
  falsy (input_file args) || falsy (output_file args) = false ->
  before_output h (input_file args) (column_name_pattern args) (column_prefix args)
                (encoding args) s = (Ok text, s1) ->
  files (w s) !! output_file args = None ->
  uncreatable (w s) !! output_file args = Some ENOENT ->
  run h argv s =
    (Some 1%Z,
     add_event s1
       (Log ERROR (py "Error: Input file '" ++ input_file args ++ py "' not found."))) /\
  w s1 = w s.
Proof.
  intros Hargs Hfalsy Hb Hf Hu.
  pose proof (readonly_before_output h (input_file args) (column_name_pattern args)
                (column_prefix args) (encoding args) s) as Hro.
  rewrite Hb in Hro. simpl in Hro. split; [|done].
  pose proof (run_cases h argv args s Hargs) as Hr. rewrite Hfalsy in Hr.
  assert (try_body h (input_file args) (output_file args) (column_name_pattern args)
            (column_prefix args) (encoding args) s =
          (Raise (os_error h ENOENT (output_file args)), s1)) as Ht.
  { revert Hb. unfold before_output, try_body, with_encoding, bind.
    destruct (resolve_encoding h (input_file args) (encoding args) s) as [[enc|e0|] s0];
      try done.
    destruct (read_and_substitute h (input_file args) (column_name_pattern args)
                (column_prefix args) enc s0) as [[text'|e1|] s2]; try done.
    intros [= -> ->].
    unfold write_text, open_raw_write, bind, get_world, raise.
    rewrite Hro, Hf, Hu. done. }
  by rewrite Ht in Hr.
Qed.

Lemma missing_output_directory_blames_input_witness :
  run host0 [py "in.sql"; py "nodir/out.sql"] state0 =
    (Some 1%Z,
     add_event state0 (Log ERROR (py "Error: Input file 'in.sql' not found."))) /\
  w state0 = w state0.
Proof.
  apply (missing_output_directory_blames_input host0 [py "in.sql"; py "nodir/out.sql"]
           {| input_file := py "in.sql"; output_file := py "nodir/out.sql";
              column_name_pattern := default_column_name_pattern;
              column_prefix := default_column_prefix;
              encoding := default_encoding |}
           state0 (py "CREATE TABLE t (column_1 INT, column_2 TEXT);") state0);
    vm_compute; reflexivity.
Defined.

Lemma write_text_Ok_exists h path enc text s s' :
  write_text h path enc text s = (Ok tt, s') ->
  exists data rd wt, files (w s') !! path = Some (File data rd wt).
Proof.
  unfold write_text, open_raw_write, lookup_codec, raw_write, bind, get_world, put_files,
    raise, ret.
  destruct (files (w s) !! path) as [[d rd []|]|] eqn:Hf; simpl; try done.
  - destruct (codecs_lookup h enc) as [c|]; [|done]. simpl.
    destruct (encode c (write_newlines h text)) as [msg|data]; [done|]. simpl.
    rewrite lookup_insert_eq. simpl. intros [= <-]. simpl.
    rewrite lookup_insert_eq. by eexists _, _, _.
  - destruct (uncreatable (w s) !! path); [done|]. simpl.
    destruct (codecs_lookup h enc) as [c|]; [|done]. simpl.
    destruct (encode c (write_newlines h text)) as [msg|data]; [done|]. simpl.
    rewrite lookup_insert_eq. simpl. intros [= <-]. simpl.
    rewrite lookup_insert_eq. by eexists _, _, _.
Qed.

(** X11.  Exit status 0 after the orchestration ran means that the output
    was written: whenever a run whose command line was accepted ends with
    status 0, a regular file is at the output path afterwards.  (Status 0
    after the help is the one case without an output.) *)
Theorem status_0_means_output_exists (h : host) (argv : list str) (s : state) :
  let '(code, s') := run h argv s in
  match argparse h argv with
  | Parsed_args args =>
      code = Some 0%Z ->
      exists data rd wt, files (w s') !! output_file args = Some (File data rd wt)
  | Usage_error _ => code = Some 2%Z
  | Help_requested => code = Some 0%Z /\ w s' = w s
  end.
Proof.
  pose proof (run_unparsed h argv s) as Hu.
  destruct (argparse h argv) as [args|msg|] eqn:Hargs; [|by rewrite Hu..].
  pose proof (run_cases h argv args s Hargs) as Hr.
  destruct (falsy (input_file args) || falsy (output_file args)); [by rewrite Hr|].
  destruct (try_body h (input_file args) (output_file args) (column_name_pattern args)
              (column_prefix args) (encoding args) s) as [[[]|[c msg|code]|] s1] eqn:Hb;
    try done; rewrite Hr; [|done].
  intros _. revert Hb. unfold try_body, with_encoding, bind, logging_info.
  destruct (resolve_encoding h (input_file args) (encoding args) s) as [[enc|e0|] s0];
    try done.
  destruct (read_and_substitute h (input_file args) (column_name_pattern args)
              (column_prefix args) enc s0) as [[text|e1|] s2]; try done.
  destruct (write_text h (output_file args) enc text s2) as [[[]|e2|] s3] eqn:Hw; try done.
  intros [= <-]. simpl. by apply (write_text_Ok_exists h _ enc text s2).
Qed.

(** *** The names *)

Lemma digits_inj u : forall u', digits u = digits u' -> u = u'.
Proof.
  induction u as [|u IH|u IH|u IH|u IH|u IH|u IH|u IH|u IH|u IH|u IH];
    intros [|u'|u'|u'|u'|u'|u'|u'|u'|u'|u']; simpl; intros H;
    try discriminate H; try reflexivity;
    injection H as H; by rewrite (IH u' H).
Qed.

Lemma digits_no_minus u x : digits u <> 45%N :: x.
Proof. by destruct u. Qed.

Lemma str_of_int_inj a b : str_of_int a = str_of_int b -> a = b.
Proof.
  unfold str_of_int. intros H.
  assert (Z.to_int a = Z.to_int b) as E.
  { destruct (Z.to_int a) as [u|u], (Z.to_int b) as [u'|u'].
    - by rewrite (digits_inj u u' H).
    - by apply digits_no_minus in H.
    - symmetry in H. by apply digits_no_minus in H.
    - injection H as H. by rewrite (digits_inj u u' H). }
  rewrite <- (DecimalZ.of_to a), <- (DecimalZ.of_to b). by rewrite E.
Qed.

Lemma replacements_fst prefix ms : forall n : Z,
  (replacements (replace_column_name prefix) ms n).1 =
    map (fun k => prefix ++ str_of_int (n + Z.of_nat k)) (seq 0 (length ms)).
Proof.
  induction ms as [|[b e] ms IH]; intros n; simpl; [done|].
  specialize (IH (n + 1)%Z).
  destruct (replacements (replace_column_name prefix) ms (n + 1)%Z) as [items st].
  simpl in *. rewrite Z.add_0_r. f_equal.
  rewrite IH, <- seq_shift, map_map. apply map_ext. intros k. do 2 f_equal. lia.
Qed.

(** X7.  The names that the callback hands out in one pass are pairwise
    different, whatever the prefix and whatever was matched: two matches
    never get the same name, not even two occurrences of the same column
    name. *)
Theorem replacement_names_are_distinct (prefix : str) (ms : list (nat * nat)) (n : Z) :
  NoDup (replacements (replace_column_name prefix) ms n).1.
Proof.
  rewrite replacements_fst.
  assert (Inj eq eq (fun k : nat => prefix ++ str_of_int (n + Z.of_nat k))) as Hinj.
  { intros x y H. apply app_inv_head in H. apply str_of_int_inj in H. lia. }
  apply (NoDup_fmap_2 _ _ (NoDup_seq 0 (length ms))).
Qed.

(** *** Edge cases of the text *)



Example empty_text_both_ways :
  substitute host0 (py "\w+") (py "column_") [] = Ok ([], 1%Z) /\
  substitute host0 (py "\w*") (py "column_") [] = Ok (py "column_1", 2%Z).
Proof. split; vm_compute; reflexivity. Qed.

Lemma translate_newlines_no_cr n : forall s,
  length s <= n -> Forall (fun c => c <> 13%N) (translate_newlines s).
Proof.
  induction n as [|n IH]; intros [|c s] Hn; simpl in *; try done; [lia|].
  destruct (N.eqb_spec c 13) as [->|Hc].
  - destruct s as [|d s]; [by repeat constructor|].
    simpl in Hn. destruct (d =? 10)%N; constructor; try done; apply IH; simpl; lia.
  - constructor; [done|]. apply IH. lia.
Qed.

Lemma translate_newlines_id s :
  Forall (fun c => c <> 13%N) s -> translate_newlines s = s.
Proof.
  induction 1 as [|c s Hc Hs IH]; simpl; [done|].
  destruct (N.eqb_spec c 13); [done|]. by rewrite IH.
Qed.

(** X9.  The text that is read from the input never holds a carriage
    return: the input is opened with universal newlines, so CR LF and CR
    reach the substitution as LF (and a pattern can only meet LF); a text
    without carriage returns is read as it is. *)
Theorem input_text_has_no_cr (h : host) (path enc : str) (s : state) :
  match (read_text h path enc Replace s).1 with
  | Ok text => Forall (fun c => c <> 13%N) text
  | _ => True
  end /\
  forall t, Forall (fun c => c <> 13%N) t -> translate_newlines t = t.
Proof.
  split; [|apply translate_newlines_id].
  rewrite read_text_replace.
  destruct (files (w s) !! path) as [[data [] wr|]|]; try done.
  destruct (codecs_lookup h enc) as [c|]; [|done].
  destruct (decode c Replace data) as [[k msg]|text]; [done|]. simpl.
  by apply (translate_newlines_no_cr (length text)).
Qed.

Example crlf_input_is_rewritten :
  observe [py "in.sql"; py "out.sql"] (py "out.sql")
          {| w := {| files := {[ py "in.sql" := File [97; 13; 10; 98; 13; 99]%N true true ]};
                     uncreatable := ∅ |};
             trace := [] |} =
    (Some 0%Z, Some (File [97; 10; 98; 10; 99]%N true true),
     [Log INFO (py "Anonymized table definition written to out.sql")]).
Proof. vm_compute. reflexivity. Qed.

(** *** The command line *)

(** X10.  For a command line without options (no argument starts with a
    hyphen), the process ends with the usage status 2 exactly when the
    number of arguments is not two. *)
Theorem usage_status_iff_wrong_count (h : host) (argv : list str) (s : state) :
  hyphen_free argv = true ->
  (run h argv s).1 = Some 2%Z <-> length argv <> 2.
Proof.
  intros Hfree.
  pose proof (run_unparsed h argv s) as Hu.
  assert (length argv = 2 -> exists args, argparse h argv = Parsed_args args) as Htwo.
  { intros Hl. destruct argv as [|i [|o [|]]]; try done.
    unfold argparse. fold (hyphen_free [i; o]). rewrite Hfree. by eexists. }
  assert (length argv <> 2 -> exists msg, argparse h argv = Usage_error msg) as Hother.
  { intros Hl. unfold argparse. fold (hyphen_free argv). rewrite Hfree.
    destruct argv as [|i [|o [|x rest]]]; try done; by eexists. }
  split.
  - intros Hrun Hl. destruct (Htwo Hl) as (args & Hargs).
    pose proof (run_cases h argv args s Hargs) as Hr.
    destruct (falsy (input_file args) || falsy (output_file args));
      [by rewrite Hr in Hrun|].
    destruct (try_body h (input_file args) (output_file args) (column_name_pattern args)
                (column_prefix args) (encoding args) s) as [[[]|[c msg|code]|] s1];
      try done; by rewrite Hr in Hrun.
  - intros Hl. destruct (Hother Hl) as (msg & Hargs). rewrite Hargs in Hu.
    by rewrite Hu.
Qed.

Lemma usage_status_iff_wrong_count_witness :
  (run host0 [py "a.sql"; py "b.sql"; py "c.sql"] state0).1 = Some 2%Z
  <-> length [py "a.sql"; py "b.sql"; py "c.sql"] <> 2.
Proof.
  apply (usage_status_iff_wrong_count host0 [py "a.sql"; py "b.sql"; py "c.sql"] state0).
  vm_compute. reflexivity.
Defined.

End Extras.
